(** * Goblet: a caching proxy for the Git smart-HTTP protocol (version 2)

    A shallow embedding of the managed-mirror subsystem of the repository
    (managed_repository.go, handlers.go and the command dispatcher), and the
    properties of its specification checked against it.

    Layout: the Go library functions the code calls are modelled first
    (package by package, one module each), then the program itself and a
    small world to run it in, then the properties, and last the properties
    at concrete inputs. *)

From Stdlib Require Import Ascii String ZArith Lia.
From stdpp Require Import gmap strings list pretty.

Local Open Scope Z_scope.
Local Open Scope nat_scope.

(* ===================================================================== *)
(** * Part I. The Go libraries the program calls                          *)
(* ===================================================================== *)

(** ** Package [strings]. A Go string is a sequence of bytes; so is a Rocq
    [string]. *)
Module Strings.

(** [strings.HasPrefix(s, prefix)]:
    [len(s) >= len(prefix) && s[:len(prefix)] == prefix]. *)
Fixpoint HasPrefix (s prefix : string) {struct prefix} : bool :=
  match prefix with
  | EmptyString => true
  | String p prefix' =>
      match s with
      | EmptyString => false
      | String c s' => if Ascii.eqb c p then HasPrefix s' prefix' else false
      end
  end.

(** [strings.HasSuffix(s, suffix)]:
    [len(s) >= len(suffix) && s[len(s)-len(suffix):] == suffix]. *)
Definition HasSuffix (s suffix : string) : bool :=
  (String.length suffix <=? String.length s) &&
  String.eqb
    (String.substring (String.length s - String.length suffix)
                      (String.length suffix) s)
    suffix.

(** [strings.TrimSuffix(s, suffix)]: [s[:len(s)-len(suffix)]] when [s] has
    the suffix, [s] unchanged otherwise. One suffix is removed, once. *)
Definition TrimSuffix (s suffix : string) : string :=
  if HasSuffix s suffix
  then String.substring 0 (String.length s - String.length suffix) s
  else s.

(** [strings.Contains(s, substr)]. *)
Fixpoint Contains (s substr : string) : bool :=
  HasPrefix s substr ||
  match s with
  | EmptyString => false
  | String _ s' => Contains s' substr
  end.

(** [strings.Split(s, sep)] for a one-byte separator: the pieces of [s]
    between the separators, one more than there are separators. *)
Fixpoint Split (s : string) (sep : ascii) : list string :=
  match s with
  | EmptyString => [EmptyString]
  | String c s' =>
      if Ascii.eqb c sep then EmptyString :: Split s' sep
      else match Split s' sep with
           | piece :: pieces => String c piece :: pieces
           | [] => [String c EmptyString]
           end
  end.

(** [strings.Join(elems, sep)]. *)
Fixpoint Join (elems : list string) (sep : string) : string :=
  match elems with
  | [] => EmptyString
  | [e] => e
  | e :: rest => e +:+ sep +:+ Join rest sep
  end.

(** [strings.NewReplacer(old1, new1, old2, new2, ...)]: the pairs, in
    argument order. *)
Definition Replacer := list (string * string).

Definition NewReplacer (oldnew : list (string * string)) : Replacer := oldnew.

(** The replacer's lookup at one position: of the old strings that are a
    prefix of what is left of the input, the one that comes first in
    argument order wins ("comparisons are done in argument order"). It
    yields the replacement and the length of the key. *)
Fixpoint lookup (r : Replacer) (s : string) : option (string * nat) :=
  match r with
  | [] => None
  | (old, new) :: r' =>
      if HasPrefix s old then Some (new, String.length old) else lookup r' s
  end.

(** The replacer's scan: "replacements are performed in the order they
    appear in the target string, without overlapping matches". At each
    position either a key matches, its replacement is written and the key's
    bytes are skipped, or the byte is copied. The output is never scanned
    again. [skip] counts the bytes of a matched key still to be passed.
    (Every key of this program is non-empty; the empty key is not
    modelled.) *)
Fixpoint ReplaceFrom (r : Replacer) (skip : nat) (s : string) : string :=
  match s with
  | EmptyString => EmptyString
  | String c s' =>
      match skip with
      | S k => ReplaceFrom r k s'
      | O =>
          match lookup r s with
          | Some (new, keylen) => new +:+ ReplaceFrom r (keylen - 1) s'
          | None => String c (ReplaceFrom r 0 s')
          end
      end
  end.

(** The method [Replace(s)] of a replacer. *)
Definition Replace (r : Replacer) (s : string) : string := ReplaceFrom r 0 s.

End Strings.

(** ** Package [path/filepath], on a Unix system (separator [/]). *)
Module Filepath.

(** One step of [Clean] over the components kept so far (last one first):
    an empty component (a doubled separator) and [.] are dropped; [..]
    removes the component before it when there is one that is not itself
    [..], is dropped at the root, and is kept in a relative path. *)
Definition cleanStep (rooted : bool) (kept : list string) (comp : string)
  : list string :=
  if String.eqb comp "" || String.eqb comp "." then kept
  else if String.eqb comp ".." then
    match kept with
    | top :: kept' =>
        if String.eqb top ".." then comp :: kept else kept'
    | [] => if rooted then [] else [comp]
    end
  else comp :: kept.

(** [filepath.Clean(path)]: the shortest path equivalent to [path] by
    lexical processing; the empty path becomes [.]. *)
Definition Clean (path : string) : string :=
  let rooted := Strings.HasPrefix path "/" in
  let kept := rev (fold_left (cleanStep rooted) (Strings.Split path "/"%char) []) in
  let body := Strings.Join kept "/" in
  if rooted then "/" +:+ body
  else if String.eqb body "" then "." else body.

(** [filepath.Join(elem...)]: the elements from the first non-empty one on
    are joined with the separator and the result is cleaned; with no
    non-empty element the result is the empty string. *)
Fixpoint Join (elem : list string) : string :=
  match elem with
  | [] => ""
  | e :: rest =>
      if String.eqb e "" then Join rest
      else Clean (Strings.Join elem "/")
  end.

End Filepath.

(** ** Package [net/url]. *)
Module Url.

Record Userinfo := mkUserinfo {
  username : string;
  password : string;
  passwordSet : bool
}.

(** [url.URL]: [scheme://userinfo@host/path?query#fragment]. *)
Record URL := mkURL {
  Scheme : string;
  Opaque : string;
  User : option Userinfo;
  Host : string;
  Path : string;
  RawPath : string;
  ForceQuery : bool;
  RawQuery : string;
  Fragment : string;
  RawFragment : string
}.

(** The zero value [url.URL{}]. *)
Definition zero : URL :=
  {| Scheme := ""; Opaque := ""; User := None; Host := ""; Path := "";
     RawPath := ""; ForceQuery := false; RawQuery := ""; Fragment := "";
     RawFragment := "" |}.

End Url.

(** ** Package [regexp] (RE2 syntax), as far as the program uses it: a
    pattern that ends in [$]. Without flags [^] matches at the beginning of
    the text and [$] only at its end. *)
Module Regexp.

(** The syntax tree of an expression between the anchors. *)
Inductive regex : Type :=
| NoMatch                                  (* matches no string *)
| EmptyMatch                               (* matches the empty string *)
| Lit (c : ascii)                          (* one literal byte *)
| CharClass (ranges : list (ascii * ascii)) (* a class of byte ranges lo-hi *)
| Concat (r1 r2 : regex)
| Alternate (r1 r2 : regex)
| Star (r : regex)
| Capture (r : regex).                     (* a capturing group *)

(** A literal string, byte by byte. *)
Fixpoint Literal (s : string) : regex :=
  match s with
  | EmptyString => EmptyMatch
  | String c s' => Concat (Lit c) (Literal s')
  end.

Definition inRange (c : ascii) (range : ascii * ascii) : bool :=
  (nat_of_ascii (fst range) <=? nat_of_ascii c) &&
  (nat_of_ascii c <=? nat_of_ascii (snd range)).

Definition inClass (ranges : list (ascii * ascii)) (c : ascii) : bool :=
  existsb (inRange c) ranges.

(** Whether the expression matches the empty string. *)
Fixpoint nullable (r : regex) : bool :=
  match r with
  | NoMatch => false
  | EmptyMatch => true
  | Lit _ => false
  | CharClass _ => false
  | Concat r1 r2 => nullable r1 && nullable r2
  | Alternate r1 r2 => nullable r1 || nullable r2
  | Star _ => true
  | Capture r1 => nullable r1
  end.

(** The expression for what may follow the byte [c]. *)
Fixpoint derive (c : ascii) (r : regex) : regex :=
  match r with
  | NoMatch => NoMatch
  | EmptyMatch => NoMatch
  | Lit d => if Ascii.eqb c d then EmptyMatch else NoMatch
  | CharClass ranges => if inClass ranges c then EmptyMatch else NoMatch
  | Concat r1 r2 =>
      if nullable r1
      then Alternate (Concat (derive c r1) r2) (derive c r2)
      else Concat (derive c r1) r2
  | Alternate r1 r2 => Alternate (derive c r1) (derive c r2)
  | Star r1 => Concat (derive c r1) (Star r1)
  | Capture r1 => derive c r1
  end.

(** The whole of [s] matches [r]. *)
Fixpoint matches (r : regex) (s : string) : bool :=
  match s with
  | EmptyString => nullable r
  | String c s' => matches (derive c r) s'
  end.

(** A compiled pattern [expr$], or [^expr$] when [beginText] is set. *)
Record Regexp := mkRegexp {
  beginText : bool;
  expr : regex
}.

(** The leftmost position from which the rest of the text matches. *)
Fixpoint findSuffix (r : regex) (s : string) : option string :=
  if matches r s then Some s
  else match s with
       | EmptyString => None
       | String _ s' => findSuffix r s'
       end.

(** The method [FindString(s)]: the text of the leftmost match, the empty
    string when there is none. The pattern ends in [$], so a match runs to
    the end of the text; with [^] it is the whole text or nothing. *)
Definition FindString (re : Regexp) (s : string) : string :=
  if beginText re
  then (if matches (expr re) s then s else "")
  else default "" (findSuffix (expr re) s).

End Regexp.

(** ** Package [fmt]: the verbs [%v] and [%d] of an integer write it in
    decimal. *)
Definition Itoa (n : nat) : string := pretty n.

(** ** Errors. A Go [error] is kept with the text its [Error()] method
    returns; errors of the operating system, the network and the libraries
    are [errorString]s. *)
Inductive Code := Internal | InvalidArgument.

Inductive error : Type :=
| errorString (msg : string)               (* errors.New, fmt.Errorf *)
| statusError (code : Code) (msg : string). (* status.Errorf *)

Definition codeName (c : Code) : string :=
  match c with
  | Internal => "Internal"
  | InvalidArgument => "InvalidArgument"
  end.

Definition Error (e : error) : string :=
  match e with
  | errorString msg => msg
  | statusError c msg => "rpc error: code = " +:+ codeName c +:+ " desc = " +:+ msg
  end.

(** ** Package [time]: an instant; the zero value [time.Time{}]. *)
Module Time.
Record Time := mkTime { wall : Z; ext : Z }.
Definition zero : Time := mkTime 0 0.
Definition IsZero (t : Time) : bool :=
  Z.eqb (wall t) 0 && Z.eqb (ext t) 0.
End Time.

(** ** Package [net/http]: headers, the request sent to the upstream and
    what comes back. *)
Module Http.

(** Header fields by canonical name, in the order they were added. *)
Definition Header := list (string * string).

Fixpoint Get (h : Header) (key : string) : string :=
  match h with
  | [] => ""
  | (k, v) :: h' => if String.eqb k key then v else Get h' key
  end.

Definition Add (h : Header) (key value : string) : Header := h ++ [(key, value)].

(** A body: the bytes it delivers and the error that ends it ([None]: it
    ends normally). *)
Definition Reader := (string * option error)%type.

(** [ioutil.ReadAll]. *)
Definition ReadAll (r : Reader) : error + string :=
  match snd r with
  | Some e => inl e
  | None => inr (fst r)
  end.

Record ClientRequest := mkClientRequest {
  reqMethod : string;
  reqURL : string;
  reqHeader : Header;
  reqBody : string
}.

Record ClientResponse := mkClientResponse {
  respStatusCode : nat;
  respHeader : Header;
  respBody : Reader
}.

Definition StatusOK := 200.
Definition StatusBadRequest := 400.
Definition StatusUnauthorized := 401.
Definition StatusNotFound := 404.
Definition StatusInternalServerError := 500.

End Http.

(** ** Package [goproxy]: the response a handler hands back. [NewResponse]
    sets the status, one [Content-Type] header and the body, nothing else. *)
Module Goproxy.

Record Response := mkResponse {
  StatusCode : nat;
  Header : Http.Header;
  Body : string
}.

Definition ContentTypeText : string := "text/plain".

Definition NewResponse (contentType : string) (status : nat) (body : string)
  : Response :=
  {| StatusCode := status;
     Header := Http.Add [] "Content-Type" contentType;
     Body := body |}.

End Goproxy.

(** ** Package [gitprotocolio]: the chunks of the protocol. *)
Module Gitprotocolio.

(** A chunk of a request; [Argument] is [None] for a nil byte slice. *)
Record ProtocolV2RequestChunk := mkRequestChunk {
  Command : string;
  Capability : string;
  EndCapability : bool;
  Argument : option string;
  EndArgument : bool;
  EndRequest : bool
}.

(** A chunk of a response; [Response] is [None] for a nil byte slice. *)
Record ProtocolV2ResponseChunk := mkResponseChunk {
  Response : option string;
  Delimiter : bool;
  EndResponse : bool
}.

(** A chunk of the [info/refs] advertisement. *)
Record InfoRefsResponseChunk := mkInfoRefsChunk {
  ProtocolVersion : nat;
  Capabilities : list string;
  EndOfRequest : bool
}.

End Gitprotocolio.

(** ** Package [go-git]: what the program reads of a repository on disk. *)
Inductive lookupResult (A : Type) : Type :=
| Found (a : A)
| NotFound            (* plumbing.ErrReferenceNotFound, plumbing.ErrObjectNotFound *)
| Failed (e : error). (* any other error *)
Arguments Found {A} a.
Arguments NotFound {A}.
Arguments Failed {A} e.

(** ** Packages [os] and [os/exec]. *)
Inductive statResult :=
| StatOk
| StatNotExist          (* an error for which os.IsNotExist holds *)
| StatError (e : error).

Record Cmd := mkCmd {
  Path : string;
  Args : list string;
  Env : list string;
  Dir : string;
  Stdin : string
}.

(** [exec.Command(name, arg...)]. *)
Definition Command (name : string) (arg : list string) : Cmd :=
  {| Path := name; Args := name :: arg; Env := []; Dir := ""; Stdin := "" |}.

(** ** The library functions taken as given. Their code is not part of the
    repository; the program's behaviour is stated for every choice of them.
    The last fields stand for helpers of the repository whose file is not
    among its sources ([writePacket], [writeResp]; [copyRequestChunk] and
    [copyResponseChunk] copy a chunk and are the identity on values). *)
Class Library := {
  Hash : Type;                                   (* plumbing.Hash *)
  Hash_eq_dec :: EqDecision Hash;
  NewHash : string -> Hash;                      (* plumbing.NewHash *)
  TrimSpace : string -> string;                  (* strings.TrimSpace *)
  URL_String : Url.URL -> string;                (* the method String of a URL *)
  Query_Get : Url.URL -> string -> string;       (* u.Query().Get(key) *)
  NewRequest_err : string -> string -> option error; (* the error of http.NewRequest *)
  EncodeToPktLine : Gitprotocolio.ProtocolV2RequestChunk -> string;
  ScanV2Request :
    Http.Reader -> list Gitprotocolio.ProtocolV2RequestChunk * option error;
  ScanV2Response :
    Http.Reader -> list Gitprotocolio.ProtocolV2ResponseChunk * option error;
  gzip_NewReader : Http.Reader -> error + Http.Reader;
  Sprint_chunk : Gitprotocolio.ProtocolV2RequestChunk -> string; (* the verb %v *)
  writePacket : Gitprotocolio.InfoRefsResponseChunk -> error + string;
  writeResp : list Gitprotocolio.ProtocolV2ResponseChunk -> string
}.

(** A repository as [git.PlainOpen] gives it: references by name (symbolic
    ones resolved) and objects by hash. *)
Record Repository `{Library} := mkRepository {
  Reference : string -> lookupResult Hash;
  Object : Hash -> lookupResult unit
}.

(** ** The world outside the program: the file system, the [git] binary,
    the upstream server and the runtime. Each operation reads the world and
    may change it. *)
Class System `{Library} (World : Type) := {
  os_Stat : string -> World -> statResult;
  os_MkdirAll : string -> World -> option error * World;
  (** [cmd.Run()]: what the process wrote to its standard output, and the
      error. *)
  exec_Run : Cmd -> World -> (string * option error) * World;
  git_PlainOpen : string -> World -> error + Repository;
  http_Do : Http.ClientRequest -> World -> (error + Http.ClientResponse) * World;
  (** The order in which a [range] over a map visits its entries: any order
      the runtime likes. *)
  map_range : World -> gmap string Hash -> list (string * Hash);
  map_range_perm : forall w m, map_range w m ≡ₚ map_to_list m;
  (** The path of the git binary, found at start-up ([exec.LookPath]). *)
  gitBinary : string
}.

(* ===================================================================== *)
(** * Part II. The program                                                *)
(* ===================================================================== *)

(** ** Configuration (its logging callbacks only observe, and are left
    out, as is the operation sink they feed). *)
Record ServerConfig := mkServerConfig {
  LocalDiskCacheRoot : string
}.

(** ** managed_repository.go: paths and the canonical URL *)

Definition withPath (u : Url.URL) (path : string) : Url.URL :=
  {| Url.Scheme := Url.Scheme u; Url.Opaque := Url.Opaque u;
     Url.User := Url.User u; Url.Host := Url.Host u; Url.Path := path;
     Url.RawPath := Url.RawPath u; Url.ForceQuery := Url.ForceQuery u;
     Url.RawQuery := Url.RawQuery u; Url.Fragment := Url.Fragment u;
     Url.RawFragment := Url.RawFragment u |}.

Definition urlFixer (u : Url.URL) : Url.URL :=
  let result :=
    {| Url.Scheme := "https"; Url.Opaque := ""; Url.User := None;
       Url.Host := Url.Host u; Url.Path := Url.Path u; Url.RawPath := "";
       Url.ForceQuery := false; Url.RawQuery := ""; Url.Fragment := "";
       Url.RawFragment := "" |} in
  if Strings.HasSuffix (Url.Path result) "/info/refs" then
    withPath result (Strings.TrimSuffix (Url.Path result) "/info/refs")
  else if Strings.HasSuffix (Url.Path result) "/git-receive-pack" then
    withPath result (Strings.TrimSuffix (Url.Path result) "/git-receive-pack")
  else if Strings.HasSuffix (Url.Path result) "/git-upload-pack" then
    withPath result (Strings.TrimSuffix (Url.Path result) "/git-upload-pack")
  else result.

Definition stripGitSuffixes (path : string) : string :=
  let replacer :=
    Strings.NewReplacer
      [("/info/refs", ""); ("/git-receive-pack", "");
       ("/git-upload-pack", ""); (".git", "")] in
  Strings.Replace replacer path.

Definition getLocalGitRepositoryPath (config : ServerConfig) (u : Url.URL)
  : string :=
  Filepath.Join
    [LocalDiskCacheRoot config; Url.Host u; stripGitSuffixes (Url.Path u)].

(** ** The mirror. (The lock [mu] orders concurrent callers; the model runs
    one call at a time.) *)
Record managedRepository := mkManagedRepository {
  localDiskPath : string;
  lastUpdate : Time.Time;
  upstreamURL : Url.URL;
  config : ServerConfig;
  isPublic : bool;
  accessList : list string
}.

(** ** What the program does to the outside, in order. *)
Inductive Effect :=
| EffMkdir (path : string)
| EffExec (cmd : Cmd)
| EffHTTP (req : Http.ClientRequest)
| EffGo (r : managedRepository) (authentication : string).
  (* [go r.fetchUpstream(authentication)]: a task is started *)

(** ** The state a call runs in: the world, the process-wide registry
    [managedRepos] (keyed by local path) and the effects so far. *)
Record State (World : Type) := mkState {
  world : World;
  managedRepos : gmap string managedRepository;
  trace : list Effect
}.
Arguments mkState {World} world managedRepos trace.
Arguments world {World} s.
Arguments managedRepos {World} s.
Arguments trace {World} s.

(** A computation over the state. *)
Definition M (World A : Type) : Type := State World -> A * State World.

Definition ret {World A} (a : A) : M World A := fun st => (a, st).

Definition bind {World A B} (m : M World A) (k : A -> M World B) : M World B :=
  fun st => let (a, st') := m st in k a st'.

Notation "x <- m ;; k" := (bind m (fun x => k))
  (at level 100, m at next level, right associativity).
Notation "m ;;; k" := (bind m (fun _ => k))
  (at level 100, right associativity).

Section Program.
Context {lib : Library} {World : Type} {sys : System World}.

Local Abbreviation M := (M World).

(** *** The primitives: one call to the outside each *)

Definition emit (e : Effect) : M unit :=
  fun st => (tt, mkState (world st) (managedRepos st) (trace st ++ [e])).

Definition Stat (path : string) : M statResult :=
  fun st => (os_Stat path (world st), st).

Definition MkdirAll (path : string) : M (option error) :=
  fun st =>
    let (err, w) := os_MkdirAll path (world st) in
    (err, mkState w (managedRepos st) (trace st ++ [EffMkdir path])).

Definition Run (cmd : Cmd) : M (string * option error) :=
  fun st =>
    let (res, w) := exec_Run cmd (world st) in
    (res, mkState w (managedRepos st) (trace st ++ [EffExec cmd])).

Definition PlainOpen (path : string) : M (error + Repository) :=
  fun st => (git_PlainOpen path (world st), st).

Definition Do (req : Http.ClientRequest) : M (error + Http.ClientResponse) :=
  fun st =>
    let (res, w) := http_Do req (world st) in
    (res, mkState w (managedRepos st) (trace st ++ [EffHTTP req])).

Definition rangeMap (m : gmap string Hash) : M (list (string * Hash)) :=
  fun st => (map_range (world st) m, st).

(** Whatever else runs meanwhile (other requests, tasks started with
    [go]) changes the world between two steps of a waiting call. *)
Definition meanwhile (env : World -> World) : M unit :=
  fun st => (tt, mkState (env (world st)) (managedRepos st) (trace st)).

(** *** The registry *)

Definition managedRepositoryExists (config : ServerConfig) (u : Url.URL)
  : M bool :=
  fun st =>
    (bool_decide (is_Some (managedRepos st !! getLocalGitRepositoryPath config u)), st).

Definition createManagedRepository
    (config : ServerConfig) (u : Url.URL) (auth : string)
  : M managedRepository :=
  let u := urlFixer u in
  let localRepositoryPath := getLocalGitRepositoryPath config u in
  let repository :=
    {| localDiskPath := localRepositoryPath;
       lastUpdate := Time.zero;
       upstreamURL := u;
       config := config;
       isPublic := true;
       accessList := [] |} in
  let repository :=
    if negb (String.eqb auth "") then
      {| localDiskPath := localDiskPath repository;
         lastUpdate := lastUpdate repository;
         upstreamURL := upstreamURL repository;
         config := config;
         isPublic := false;
         accessList := accessList repository ++ [auth] |}
    else repository in
  fun st =>
    (repository,
     mkState (world st)
             (<[localRepositoryPath := repository]> (managedRepos st))
             (trace st)).

Definition getManagedRepository (config : ServerConfig) (u : Url.URL)
  : M (option managedRepository) :=
  fun st => (managedRepos st !! getLocalGitRepositoryPath config u, st).

(** *** Running git *)

(** The argument vector of [runGit] and [runGitWithStdOut]: with a
    credential, [-c] and the header line are put in front of it. *)
Definition gitArgs (authentication : string) (arg : list string)
  : list string :=
  let cmd := Command gitBinary arg in
  if negb (String.eqb authentication "")
  then ["-c"; "Authorization: " +:+ authentication] ++ Args cmd
  else Args cmd.

Definition runGit (gitDir authentication : string) (arg : list string)
  : M (option error) :=
  let cmd :=
    {| Path := gitBinary; Args := gitArgs authentication arg; Env := [];
       Dir := gitDir; Stdin := "" |} in
  res <- Run cmd ;;
  match snd res with
  | Some e => ret (Some (errorString ("failed to run a git command: " +:+ Error e)))
  | None => ret None
  end.

(** The output goes to the writer: it is returned with the error. *)
Definition runGitWithStdOut (gitDir authentication : string) (arg : list string)
  : M (string * option error) :=
  let cmd :=
    {| Path := gitBinary; Args := gitArgs authentication arg; Env := [];
       Dir := gitDir; Stdin := "" |} in
  res <- Run cmd ;;
  match snd res with
  | Some e =>
      ret (fst res, Some (errorString ("failed to run a git command: " +:+ Error e)))
  | None => ret (fst res, None)
  end.

Definition newGitRequest (command : list Gitprotocolio.ProtocolV2RequestChunk)
  : string :=
  foldr (fun c b => EncodeToPktLine c +:+ b) "" command.

(** *** The methods of a mirror *)

Definition open (r : managedRepository) : M (option error) :=
  st <- Stat (localDiskPath r) ;;
  match st with
  | StatOk => ret None
  | StatError err =>
      ret (Some (statusError Internal
             ("error while initializing local Git repoitory: " +:+ Error err)))
  | StatNotExist =>
      err <- MkdirAll (localDiskPath r) ;;
      match err with
      | Some err =>
          ret (Some (statusError Internal
                 ("cannot create a cache dir: " +:+ Error err)))
      | None =>
          runGit (localDiskPath r) "" ["init"; "--bare"] ;;;
          runGit (localDiskPath r) "" ["config"; "protocol.version"; "2"] ;;;
          runGit (localDiskPath r) "" ["config"; "uploadpack.allowfilter"; "1"] ;;;
          runGit (localDiskPath r) "" ["config"; "uploadpack.allowrefinwant"; "1"] ;;;
          runGit (localDiskPath r) "" ["config"; "repack.writebitmaps"; "1"] ;;;
          runGit (localDiskPath r) "" ["config"; "http.version"; "HTTP/1.1"] ;;;
          runGit (localDiskPath r) ""
            ["remote"; "add"; "--mirror=fetch"; "origin"; URL_String (upstreamURL r)] ;;;
          ret None
      end
  end.

Definition lsRefsUpstream
    (r : managedRepository)
    (command : list Gitprotocolio.ProtocolV2RequestChunk)
    (authentication : string)
  : M (error + list Gitprotocolio.ProtocolV2ResponseChunk) :=
  let url := URL_String (upstreamURL r) +:+ "/git-upload-pack" in
  match NewRequest_err "POST" url with
  | Some err =>
      ret (inl (errorString ("cannot construct a request object: " +:+ Error err)))
  | None =>
      let header := Http.Add [] "Content-Type" "application/x-git-upload-pack-request" in
      let header := Http.Add header "Accept" "application/x-git-upload-pack-result" in
      let header := Http.Add header "Git-Protocol" "version=2" in
      let header :=
        if negb (String.eqb authentication "")
        then Http.Add header "Authorization" authentication
        else header in
      resp <- Do {| Http.reqMethod := "POST"; Http.reqURL := url;
                    Http.reqHeader := header;
                    Http.reqBody := newGitRequest command |} ;;
      match resp with
      | inl err =>
          ret (inl (statusError Internal
                 ("cannot send a request to the upstream: " +:+ Error err)))
      | inr resp =>
          if negb (Http.respStatusCode resp =? Http.StatusOK) then
            let errMessage :=
              if Strings.HasPrefix (Http.Get (Http.respHeader resp) "Content-Type") "text/html"
              then match Http.ReadAll (Http.respBody resp) with
                   | inr bs => bs
                   | inl _ => ""
                   end
              else "" in
            ret (inl (errorString
                   ("got a non-OK response from the upstream: " +:+
                    Itoa (Http.respStatusCode resp) +:+ " " +:+ errMessage)))
          else
            let scanned := ScanV2Response (Http.respBody resp) in
            match snd scanned with
            | Some err =>
                ret (inl (errorString
                       ("cannot parse the upstream response: " +:+ Error err)))
            | None => ret (inr (fst scanned))
            end
      end
  end.

(** The method assigns no field of the mirror: what it does, it does to
    the repository on disk, through git. *)
Definition fetchUpstream (r : managedRepository) (authentication : string)
  : M (option error) :=
  g <- PlainOpen (localDiskPath r) ;;
  match g with
  | inl err =>
      ret (Some (errorString
             ("cannot open the local cached repository: " +:+ Error err)))
  | inr g =>
      let splitGitFetch :=
        match Reference g "HEAD" with
        | NotFound => true
        | _ => false
        end in
      err <- (if splitGitFetch
              then runGit (localDiskPath r) authentication
                     ["fetch"; "--progress"; "-f"; "-n"; "origin";
                      "refs/heads/*:refs/heads/*"; "refs/changes/*:refs/changes/*"]
              else ret None) ;;
      match err with
      | None =>
          runGit (localDiskPath r) authentication
            ["fetch"; "--progress"; "-f"; "origin"]
      | Some _ => ret err
      end
  end.

Definition UpstreamURL (r : managedRepository) : Url.URL := upstreamURL r.

Definition LastUpdateTime (r : managedRepository) : Time.Time := lastUpdate r.

(** [Add] changes the mirror it is called on: the mirror after the call. *)
Definition Add (r : managedRepository) (auth : string) : managedRepository :=
  {| localDiskPath := localDiskPath r; lastUpdate := lastUpdate r;
     upstreamURL := upstreamURL r; config := config r;
     isPublic := isPublic r; accessList := accessList r ++ [auth] |}.

Definition HasAccess (r : managedRepository) (auth : string) : bool :=
  bool_decide (auth ∈ accessList r).

Definition RecoverFromBundle
    (r : managedRepository) (bundlePath authentication : string)
  : M (option error) :=
  runGit (localDiskPath r) authentication
    ["fetch"; "--progress"; "-f"; bundlePath; "refs/*:refs/*"].

Definition WriteBundle (r : managedRepository) (authentication : string)
  : M (string * option error) :=
  runGitWithStdOut (localDiskPath r) authentication
    ["bundle"; "create"; "-"; "--all"].

(** The loop of [hasAnyUpdate] over the entries of the map, in the order
    the range visits them: it ends at the first entry that settles it. *)
Fixpoint hasAnyUpdateLoop (g : Repository) (refs : list (string * Hash))
  : bool * option error :=
  match refs with
  | [] => (false, None)
  | (refName, hash) :: refs' =>
      match Reference g refName with
      | NotFound => (true, None)
      | Failed err =>
          (false, Some (errorString ("cannot open the reference: " +:+ Error err)))
      | Found h =>
          if bool_decide (h ≠ hash) then (true, None)
          else hasAnyUpdateLoop g refs'
      end
  end.

Definition hasAnyUpdate (r : managedRepository) (refs : gmap string Hash)
  : M (bool * option error) :=
  g <- PlainOpen (localDiskPath r) ;;
  match g with
  | inl err =>
      ret (false, Some (errorString
             ("cannot open the local cached repository: " +:+ Error err)))
  | inr g =>
      entries <- rangeMap refs ;;
      ret (hasAnyUpdateLoop g entries)
  end.

(** The two loops of [hasAllWants]; [None] when a loop runs to its end. *)
Fixpoint wantHashesLoop (g : Repository) (hashes : list Hash)
  : option (bool * option error) :=
  match hashes with
  | [] => None
  | hash :: hashes' =>
      match Object g hash with
      | NotFound => Some (false, None)
      | Failed err =>
          Some (false, Some (errorString
                  ("error while looking up an object for want check: " +:+ Error err)))
      | Found _ => wantHashesLoop g hashes'
      end
  end.

Fixpoint wantRefsLoop (g : Repository) (refs : list string)
  : option (bool * option error) :=
  match refs with
  | [] => None
  | refName :: refs' =>
      match Reference g refName with
      | NotFound => Some (false, None)
      | Failed err =>
          Some (false, Some (errorString
                  ("error while looking up a reference for want check: " +:+ Error err)))
      | Found _ => wantRefsLoop g refs'
      end
  end.

Definition hasAllWants
    (r : managedRepository) (hashes : list Hash) (refs : list string)
  : M (bool * option error) :=
  g <- PlainOpen (localDiskPath r) ;;
  match g with
  | inl err =>
      ret (false, Some (errorString
             ("cannot open the local cached repository: " +:+ Error err)))
  | inr g =>
      match wantHashesLoop g hashes with
      | Some res => ret res
      | None =>
          match wantRefsLoop g refs with
          | Some res => ret res
          | None => ret (true, None)
          end
      end
  end.

(** The output of [upload-pack] goes to the writer [w]: what [w] holds
    after the call is returned with the error. *)
Definition serveFetchLocal
    (r : managedRepository)
    (command : list Gitprotocolio.ProtocolV2RequestChunk) (w : string)
  : M (string * option error) :=
  let cmd :=
    {| Path := gitBinary;
       Args := [gitBinary; "upload-pack"; "--stateless-rpc"; localDiskPath r];
       Env := ["GIT_PROTOCOL=version=2"];
       Dir := localDiskPath r;
       Stdin := newGitRequest command |} in
  res <- Run cmd ;;
  ret (w +:+ fst res, snd res).

(** ** The command dispatcher *)

Fixpoint parseLsRefsLoop
    (chunks : list Gitprotocolio.ProtocolV2ResponseChunk)
    (m : gmap string Hash)
  : error + gmap string Hash :=
  match chunks with
  | [] => inr m
  | ch :: chunks' =>
      match Gitprotocolio.Response ch with
      | None => parseLsRefsLoop chunks' m
      | Some response =>
          match Strings.Split response " "%char with
          | ss0 :: ss1 :: _ =>
              parseLsRefsLoop chunks' (<[TrimSpace ss1 := NewHash ss0]> m)
          | ss =>
              inl (statusError Internal
                     ("cannot parse the upstream ls-refs response: got " +:+
                      Itoa (length ss) +:+ " component, want at least 2"))
          end
      end
  end.

Definition parseLsRefsResponse
    (chunks : list Gitprotocolio.ProtocolV2ResponseChunk)
  : error + gmap string Hash :=
  parseLsRefsLoop chunks ∅.

Fixpoint parseFetchWantsLoop
    (chunks : list Gitprotocolio.ProtocolV2RequestChunk)
    (hashes : list Hash) (refs : list string)
  : error + (list Hash * list string) :=
  match chunks with
  | [] => inr (hashes, refs)
  | ch :: chunks' =>
      match Gitprotocolio.Argument ch with
      | None => parseFetchWantsLoop chunks' hashes refs
      | Some s =>
          if Strings.HasPrefix s "want " then
            match Strings.Split s " "%char with
            | _ :: ss1 :: _ =>
                parseFetchWantsLoop chunks' (hashes ++ [NewHash (TrimSpace ss1)]) refs
            | ss =>
                inl (statusError InvalidArgument
                       ("cannot parse the fetch request: got " +:+
                        Itoa (length ss) +:+ " component, want at least 2"))
            end
          else if Strings.HasPrefix s "want-ref " then
            match Strings.Split s " "%char with
            | _ :: ss1 :: _ =>
                parseFetchWantsLoop chunks' hashes (refs ++ [TrimSpace ss1])
            | ss =>
                inl (statusError InvalidArgument
                       ("cannot parse the fetch request: got " +:+
                        Itoa (length ss) +:+ " component, want at least 2"))
            end
          else parseFetchWantsLoop chunks' hashes refs
      end
  end.

Definition parseFetchWants
    (chunks : list Gitprotocolio.ProtocolV2RequestChunk)
  : error + (list Hash * list string) :=
  parseFetchWantsLoop chunks [] [].

(** What a [select] of the want-wait loop receives: the context is done
    (with the error of [ctx.Err()]), the task that runs [fetchUpstream]
    hands in its result, or the timer fires. *)
Inductive Event :=
| CtxDone (err : error)
| FetchDone
| TimerFired.

(** The events a call receives, in order, each with what happened to the
    world since the step before. The fetch task runs beside the call; the
    model runs its body when its result is received, after [meanwhile]. *)
Definition Schedule := list (Event * (World -> World)).

(** How a call ends: it returns (with an error or nil), it waits for an
    event that never comes, or it panics. *)
Inductive Outcome :=
| Returned (err : option error)
| Blocked
| Panicked.

(** How the want-wait loop is left. *)
Inductive LoopExit :=
| Return (err : option error)   (* a [return] inside the loop *)
| BreakLoop                     (* [break LOOP] *)
| Waiting.                      (* no event left to receive *)

Fixpoint wantWaitLoop
    (schedule : Schedule) (repo : managedRepository)
    (wantHashes : list Hash) (wantRefs : list string) (authentication : string)
  : M LoopExit :=
  match schedule with
  | [] => ret Waiting
  | (event, env) :: schedule' =>
      meanwhile env ;;;
      match event with
      | CtxDone ctxErr => ret (Return (Some ctxErr))
      | FetchDone =>
          err <- fetchUpstream repo authentication ;;
          check <- hasAllWants repo wantHashes wantRefs ;;
          match snd check with
          | Some checkErr => ret (Return (Some checkErr))
          | None =>
              if negb (fst check) then ret (Return err)
              else ret BreakLoop
          end
      | TimerFired =>
          check <- hasAllWants repo wantHashes wantRefs ;;
          match snd check with
          | Some err => ret (Return (Some err))
          | None =>
              if fst check then ret BreakLoop
              else wantWaitLoop schedule' repo wantHashes wantRefs authentication
          end
      end
  end.

(** [handleV2Command]: the writer [w] is passed in and what it holds
    afterwards is returned with the outcome. *)
Definition handleV2Command
    (schedule : Schedule) (repo : managedRepository)
    (command : list Gitprotocolio.ProtocolV2RequestChunk)
    (w : string) (authentication : string)
  : M (string * Outcome) :=
  match command with
  | [] => ret (w, Panicked)
  | command0 :: _ =>
      if String.eqb (Gitprotocolio.Command command0) "ls-refs" then
        resp <- lsRefsUpstream repo command authentication ;;
        match resp with
        | inl err => ret (w, Returned (Some err))
        | inr resp =>
            match parseLsRefsResponse resp with
            | inl err => ret (w, Returned (Some err))
            | inr refs =>
                update <- hasAnyUpdate repo refs ;;
                match snd update with
                | Some err => ret (w, Returned (Some err))
                | None =>
                    (if fst update then emit (EffGo repo authentication)
                     else ret tt) ;;;
                    ret (w +:+ writeResp resp, Returned None)
                end
            end
        end
      else if String.eqb (Gitprotocolio.Command command0) "fetch" then
        match parseFetchWants command with
        | inl err => ret (w, Returned (Some err))
        | inr (wantHashes, wantRefs) =>
            check <- hasAllWants repo wantHashes wantRefs ;;
            match snd check with
            | Some err => ret (w, Returned (Some err))
            | None =>
                exit <- (if negb (fst check) then
                           emit (EffGo repo authentication) ;;;
                           wantWaitLoop schedule repo wantHashes wantRefs authentication
                         else ret BreakLoop) ;;
                match exit with
                | Return err => ret (w, Returned err)
                | Waiting => ret (w, Blocked)
                | BreakLoop =>
                    served <- serveFetchLocal repo command w ;;
                    match snd served with
                    | Some err => ret (fst served, Returned (Some err))
                    | None => ret (fst served, Returned None)
                    end
                end
            end
        end
      else ret (w, Returned (Some (errorString "unknown command")))
  end.

(** ** handlers.go *)

(** The request a handler is given. *)
Record Request := mkRequest {
  URL : Url.URL;
  Header : Http.Header;
  Body : Http.Reader
}.

(** What a handler hands back: a response of its own, or none, and the
    request goes on to the upstream; [Stuck] when it never returns. *)
Inductive Reply :=
| Respond (resp : Goproxy.Response)
| Forward
| Stuck.

(** The pattern of [handleGitUploadPack] as its source has it (a raw
    string), and the syntax tree it compiles to: in a class [\\] is an
    escaped backslash, so the class holds the backslash besides letters,
    digits, [+] and [=]. *)
Definition basicAuthPattern : string := "^Basic ([A-Za-z0-9\\+=]*)$".

Definition basicAuthClass : list (ascii * ascii) :=
  [("A", "Z"); ("a", "z"); ("0", "9"); ("\", "\"); ("+", "+"); ("=", "=")]%char.

Definition basicAuthRegexp : Regexp.Regexp :=
  {| Regexp.beginText := true;
     Regexp.expr :=
       Regexp.Concat (Regexp.Literal "Basic ")
         (Regexp.Capture (Regexp.Star (Regexp.CharClass basicAuthClass))) |}.

(** The packets of the advertisement, written one after the other; the
    first error ends it. *)
Fixpoint writePackets (pkts : list Gitprotocolio.InfoRefsResponseChunk)
  : error + string :=
  match pkts with
  | [] => inr ""
  | pkt :: pkts' =>
      match writePacket pkt with
      | inl err => inl err
      | inr bytes =>
          match writePackets pkts' with
          | inl err => inl err
          | inr rest => inr (bytes +:+ rest)
          end
      end
  end.

Definition infoRefsResponseChunks : list Gitprotocolio.InfoRefsResponseChunk :=
  [ {| Gitprotocolio.ProtocolVersion := 2; Gitprotocolio.Capabilities := [];
       Gitprotocolio.EndOfRequest := false |};
    {| Gitprotocolio.ProtocolVersion := 0; Gitprotocolio.Capabilities := ["ls-refs"];
       Gitprotocolio.EndOfRequest := false |};
    {| Gitprotocolio.ProtocolVersion := 0;
       Gitprotocolio.Capabilities := ["fetch=filter shallow"];
       Gitprotocolio.EndOfRequest := false |};
    {| Gitprotocolio.ProtocolVersion := 0;
       Gitprotocolio.Capabilities := ["server-option"];
       Gitprotocolio.EndOfRequest := false |};
    {| Gitprotocolio.ProtocolVersion := 0; Gitprotocolio.Capabilities := [];
       Gitprotocolio.EndOfRequest := true |} ].

Definition handleInfoRefs (r : Request) (config : ServerConfig) : M Reply :=
  if negb (String.eqb (Query_Get (URL r) "service") "git-upload-pack") then
    ret (Respond (Goproxy.NewResponse Goproxy.ContentTypeText
                    Http.StatusBadRequest "accepts only git-fetch"))
  else
    registered <- managedRepositoryExists config (URL r) ;;
    if negb registered then ret Forward
    else
      repository <- getManagedRepository config (URL r) ;;
      match repository with
      | None =>
          ret (Respond (Goproxy.NewResponse Goproxy.ContentTypeText
                          Http.StatusInternalServerError
                          "could not verify if repository exists"))
      | Some repository =>
          if negb (isPublic repository) &&
             String.eqb (Http.Get (Header r) "Authorization") ""
          then
            ret (Respond (Goproxy.NewResponse Goproxy.ContentTypeText
                            Http.StatusUnauthorized
                            "unauthorized - please send basic auth credentials"))
          else
            match writePackets infoRefsResponseChunks with
            | inl _ =>
                ret (Respond (Goproxy.NewResponse Goproxy.ContentTypeText
                                Http.StatusInternalServerError "client IO error"))
            | inr b =>
                ret (Respond (Goproxy.NewResponse
                                "application/x-git-upload-pack-advertisement"
                                Http.StatusOK b))
            end
      end.

Definition handleGitReceivePack (r : Request) (config : ServerConfig) : M Reply :=
  ret (Respond (Goproxy.NewResponse Goproxy.ContentTypeText
                  Http.StatusBadRequest "git-receive-pack is not supported")).

(** The check of a command's name in [parseAllCommands]. *)
Definition unrecognized (chunks : list Gitprotocolio.ProtocolV2RequestChunk)
  : option error :=
  match chunks with
  | [] => None
  | chunk0 :: _ =>
      if String.eqb (Gitprotocolio.Command chunk0) "ls-refs"
         || String.eqb (Gitprotocolio.Command chunk0) "fetch"
      then None
      else Some (errorString ("unrecognized command: " +:+ Sprint_chunk chunk0))
  end.

(** The loops of [parseAllCommands] over what the scanner yields
    ([scanned], then the scanner's error [scanErr]); [chunks] is the
    command being collected. The result is the error of an early return,
    or the commands when the outer loop is left. *)
Fixpoint parseAllCommandsLoop
    (scanErr : option error)
    (scanned chunks : list Gitprotocolio.ProtocolV2RequestChunk)
    (commands : list (list Gitprotocolio.ProtocolV2RequestChunk))
  : error + list (list Gitprotocolio.ProtocolV2RequestChunk) :=
  match scanned with
  | [] =>
      (* Scan returns false *)
      if (length chunks =? 0) || bool_decide (is_Some scanErr) then inr commands
      else match unrecognized chunks with
           | Some err => inl err
           | None => inr (commands ++ [chunks])
           end
  | c :: scanned' =>
      if Gitprotocolio.EndRequest c then
        if length chunks =? 0 then inr commands
        else match unrecognized chunks with
             | Some err => inl err
             | None => parseAllCommandsLoop scanErr scanned' [] (commands ++ [chunks])
             end
      else parseAllCommandsLoop scanErr scanned' (chunks ++ [c]) commands
  end.

Definition parseAllCommands (r : Http.Reader)
  : error + list (list Gitprotocolio.ProtocolV2RequestChunk) :=
  let scanned := ScanV2Request r in
  match parseAllCommandsLoop (snd scanned) (fst scanned) [] [] with
  | inl err => inl err
  | inr commands =>
      match snd scanned with
      | Some err => inl (errorString ("cannot parse the request: " +:+ Error err))
      | None => inr commands
      end
  end.

(** The status of the response for an error of a command. *)
Definition statusCodeOf (err : error) : nat :=
  let statusCode := Http.StatusInternalServerError in
  let statusCode :=
    if Strings.Contains (Error err) "401" then Http.StatusUnauthorized
    else statusCode in
  let statusCode :=
    if Strings.Contains (Error err) "404" then Http.StatusNotFound
    else statusCode in
  statusCode.

(** The loop of [handleGitUploadPack] over the commands; [schedules i] is
    what the [i]-th command receives while it waits. *)
Fixpoint handleCommands
    (schedules : nat -> Schedule) (i : nat) (repository : managedRepository)
    (commands : list (list Gitprotocolio.ProtocolV2RequestChunk))
    (buff : string) (auth : string)
  : M Reply :=
  match commands with
  | [] =>
      ret (Respond (Goproxy.NewResponse "application/x-git-upload-pack-result"
                      Http.StatusOK buff))
  | command :: commands' =>
      res <- handleV2Command (schedules i) repository command buff auth ;;
      match snd res with
      | Returned (Some err) =>
          ret (Respond (Goproxy.NewResponse "application/x-git-upload-pack-result"
                          (statusCodeOf err)
                          ("error while processing commands: " +:+ Error err)))
      | Returned None =>
          handleCommands schedules (S i) repository commands' (fst res) auth
      | Blocked | Panicked => ret Stuck
      end
  end.

Definition handleGitUploadPack
    (r : Request) (config : ServerConfig) (schedules : nat -> Schedule)
  : M Reply :=
  let regex := basicAuthRegexp in
  let auth := Regexp.FindString regex (Http.Get (Header r) "Authorization") in
  match (if String.eqb (Http.Get (Header r) "Content-Encoding") "gzip"
         then gzip_NewReader (Body r) else inr (Body r)) with
  | inl err =>
      ret (Respond (Goproxy.NewResponse "application/x-git-upload-pack-result"
                      Http.StatusBadRequest ("cannot ungzip: " +:+ Error err)))
  | inr body =>
      match parseAllCommands body with
      | inl err =>
          ret (Respond (Goproxy.NewResponse "application/x-git-upload-pack-result"
                          Http.StatusBadRequest
                          ("error while parsing commands: " +:+ Error err)))
      | inr commands =>
          found <- getManagedRepository config (URL r) ;;
          repository <- match found with
                        | Some repository => ret repository
                        | None => createManagedRepository config (URL r) auth
                        end ;;
          err <- open repository ;;
          match err with
          | Some err =>
              ret (Respond (Goproxy.NewResponse
                              "application/x-git-upload-pack-result"
                              Http.StatusBadRequest
                              ("error while opening managed repository: " +:+ Error err)))
          | None => handleCommands schedules 0 repository commands "" auth
          end
      end
  end.

End Program.

(** ** A small world to run the program in: a set of directories, a git
    binary that fails or succeeds as a whole, a local repository given by
    its objects and references, and an upstream that answers every request
    the same way. Hashes are kept as their text. *)
Module Demo.

Definition queryGet (u : Url.URL) (key : string) : string :=
  let prefix := key +:+ "=" in
  if Strings.HasPrefix (Url.RawQuery u) prefix
  then String.substring (String.length prefix)
         (String.length (Url.RawQuery u) - String.length prefix) (Url.RawQuery u)
  else "".

Definition responseChunk (line : string) : Gitprotocolio.ProtocolV2ResponseChunk :=
  {| Gitprotocolio.Response := Some line; Gitprotocolio.Delimiter := false;
     Gitprotocolio.EndResponse := false |}.

Definition requestChunk (line : string) : Gitprotocolio.ProtocolV2RequestChunk :=
  if Strings.HasPrefix line "command=" then
    {| Gitprotocolio.Command := String.substring 8 (String.length line - 8) line;
       Gitprotocolio.Capability := ""; Gitprotocolio.EndCapability := false;
       Gitprotocolio.Argument := None; Gitprotocolio.EndArgument := false;
       Gitprotocolio.EndRequest := false |}
  else if String.eqb line "0000" then
    {| Gitprotocolio.Command := ""; Gitprotocolio.Capability := "";
       Gitprotocolio.EndCapability := false; Gitprotocolio.Argument := None;
       Gitprotocolio.EndArgument := false; Gitprotocolio.EndRequest := true |}
  else
    {| Gitprotocolio.Command := ""; Gitprotocolio.Capability := "";
       Gitprotocolio.EndCapability := false; Gitprotocolio.Argument := Some line;
       Gitprotocolio.EndArgument := false; Gitprotocolio.EndRequest := false |}.

(** Chunks are written one per line. *)
Definition library : Library :=
  {| Hash := string;
     NewHash := fun s => s;
     TrimSpace := fun s => s;
     URL_String := fun u => Url.Scheme u +:+ "://" +:+ Url.Host u +:+ Url.Path u;
     Query_Get := queryGet;
     NewRequest_err := fun _ _ => None;
     EncodeToPktLine := fun c =>
       match Gitprotocolio.Argument c with
       | Some a => a
       | None => if Gitprotocolio.EndRequest c then "0000"
                 else "command=" +:+ Gitprotocolio.Command c
       end +:+ String "010" "";
     ScanV2Request := fun r =>
       (map requestChunk (Strings.Split (fst r) "010"), snd r);
     ScanV2Response := fun r =>
       (map responseChunk (Strings.Split (fst r) "010"), snd r);
     gzip_NewReader := fun r => inr r;
     Sprint_chunk := fun c => Gitprotocolio.Command c;
     writePacket := fun pkt =>
       inr (Strings.Join (Gitprotocolio.Capabilities pkt) " " +:+ String "010" "");
     writeResp := fun chunks =>
       foldr (fun c b => default "" (Gitprotocolio.Response c) +:+ String "010" b)
             "" chunks |}.

Record World := mkWorld {
  directories : list string;
  mkdirFails : bool;
  gitFails : bool;
  objects : list string;
  references : list (string * string);
  upstreamStatus : nat;
  upstreamBody : string
}.

Fixpoint lookupReference (refs : list (string * string)) (name : string)
  : lookupResult string :=
  match refs with
  | [] => NotFound
  | (n, h) :: refs' => if String.eqb n name then Found h else lookupReference refs' name
  end.

Definition repository (w : World) : @Repository library :=
  @mkRepository library
    (lookupReference (references w))
    (fun h : string =>
       if existsb (String.eqb h) (objects w) then Found tt else NotFound).

Definition addDirectory (path : string) (w : World) : World :=
  {| directories := path :: directories w; mkdirFails := mkdirFails w;
     gitFails := gitFails w; objects := objects w; references := references w;
     upstreamStatus := upstreamStatus w; upstreamBody := upstreamBody w |}.

Definition system : @System library World :=
  {| os_Stat := fun path w =>
       if existsb (String.eqb path) (directories w) then StatOk else StatNotExist;
     os_MkdirAll := fun path w =>
       if mkdirFails w then (Some (errorString "permission denied"), w)
       else (None, addDirectory path w);
     exec_Run := fun cmd w =>
       if gitFails w then (("", Some (errorString "exit status 128")), w)
       else ((if existsb (String.eqb "upload-pack") (Args cmd) then "PACK" else "",
              None), w);
     git_PlainOpen := fun path w => inr (repository w);
     http_Do := fun req w =>
       (inr {| Http.respStatusCode := upstreamStatus w; Http.respHeader := [];
               Http.respBody := (upstreamBody w, None) |}, w);
     map_range := fun _ m => map_to_list m;
     map_range_perm := fun _ m => reflexivity (map_to_list m);
     gitBinary := "/usr/bin/git" |}.

(** A cold cache: no directory, no object, no reference; git works and
    the upstream answers 200 with one advertised reference. *)
Definition cold : World :=
  {| directories := []; mkdirFails := false; gitFails := false;
     objects := []; references := [];
     upstreamStatus := 200;
     upstreamBody := "bbbbbbbbbbbbbbbbbbbbbbbbbbbbbbbbbbbbbbbb refs/heads/main" |}.

Definition config : ServerConfig := {| LocalDiskCacheRoot := "/cache" |}.

Definition url (path query : string) : Url.URL :=
  {| Url.Scheme := "https"; Url.Opaque := ""; Url.User := None;
     Url.Host := "example.invalid"; Url.Path := path; Url.RawPath := "";
     Url.ForceQuery := false; Url.RawQuery := query; Url.Fragment := "";
     Url.RawFragment := "" |}.

Definition start (w : World) : State World :=
  {| world := w; managedRepos := ∅; trace := [] |}.

(** The mirror of [https://example.invalid/org/repo.git], as an
    unauthenticated request creates it. *)
Definition mirror : managedRepository :=
  fst (createManagedRepository config (url "/org/repo.git" "") ""
         (start cold)).

Definition fetchCommand : list Gitprotocolio.ProtocolV2RequestChunk :=
  map requestChunk
      ["command=fetch"; "want aaaaaaaaaaaaaaaaaaaaaaaaaaaaaaaaaaaaaaaa"].

Definition lsRefsCommand : list Gitprotocolio.ProtocolV2RequestChunk :=
  map requestChunk ["command=ls-refs"].

(** The world once the wanted object has arrived. *)
Definition arrived (w : World) : World :=
  {| directories := directories w; mkdirFails := mkdirFails w;
     gitFails := gitFails w;
     objects := "aaaaaaaaaaaaaaaaaaaaaaaaaaaaaaaaaaaaaaaa" :: objects w;
     references := references w; upstreamStatus := upstreamStatus w;
     upstreamBody := upstreamBody w |}.

(** A world whose git binary fails every time. *)
Definition broken : World :=
  {| directories := []; mkdirFails := false; gitFails := true;
     objects := []; references := [];
     upstreamStatus := 200; upstreamBody := "" |}.

(** The registry after a request with the credential [Basic YWJj] has
    created the mirror of [https://example.invalid/private/r.git]. *)
Definition withPrivateMirror : State World :=
  snd (createManagedRepository config (url "/private/r.git/git-upload-pack" "")
         "Basic YWJj" (start cold)).

(** [GET /private/r.git/info/refs?service=git-upload-pack], with no
    Authorization header. *)
Definition infoRefsRequest : Request :=
  {| URL := url "/private/r.git/info/refs" "service=git-upload-pack";
     Header := []; Body := ("", None) |}.

(** [POST /org/repo.git/git-upload-pack] with a fetch command and a Basic
    credential whose token holds a slash. *)
Definition uploadPackRequest : Request :=
  {| URL := url "/org/repo.git/git-upload-pack" "";
     Header := [("Authorization", "Basic dXNlcjpwYXNz/w==")];
     Body := ("command=fetch" +:+ String "010"
                ("want aaaaaaaaaaaaaaaaaaaaaaaaaaaaaaaaaaaaaaaa" +:+ String "010" "0000"),
              None) |}.

End Demo.

(** ** Vocabulary of the properties *)

(** The suffixes of the three service URLs of the smart-HTTP protocol. *)
Definition serviceSuffixes : list string :=
  ["/info/refs"; "/git-receive-pack"; "/git-upload-pack"].

(** Every byte of [s] passes the test [p]. *)
Fixpoint allBytes (p : ascii -> bool) (s : string) : bool :=
  match s with
  | EmptyString => true
  | String c s' => p c && allBytes p s'
  end.

(** The headers the pattern of [handleGitUploadPack] matches: [Basic], a
    space, and a token of bytes of its class. *)
Definition basicAuthHeader (header : string) : Prop :=
  exists token,
    header = "Basic " +:+ token /\
    allBytes (Regexp.inClass basicAuthClass) token = true.

(** The credential as the specification words it: the capture group of
    its pattern (Basic, a space and, in a group, any number of bytes of a
    class that holds letters, digits, [+] and [=], between [^] and [$]);
    the group is what follows Basic and the space. Empty when the header
    does not match. *)
Definition specAuthClass : list (ascii * ascii) :=
  [("A", "Z"); ("a", "z"); ("0", "9"); ("+", "+"); ("=", "=")]%char.

Definition specCredential (header : string) : string :=
  if Regexp.matches
       (Regexp.Concat (Regexp.Literal "Basic ")
          (Regexp.Capture (Regexp.Star (Regexp.CharClass specAuthClass))))
       header
  then String.substring 6 (String.length header - 6) header
  else "".

(** The pattern as the specification writes it, between its anchors, and
    the text of its whole match on a header: the header itself when the
    pattern matches it, the empty string when it does not. *)
Definition specAuthRegexp : Regexp.regex :=
  Regexp.Concat (Regexp.Literal "Basic ")
    (Regexp.Capture (Regexp.Star (Regexp.CharClass specAuthClass))).

Definition specWholeMatch (header : string) : string :=
  if Regexp.matches specAuthRegexp header then header else "".

(** A computation that leaves the registry as it found it. *)
Definition keepsRegistry {World A : Type} (m : M World A) : Prop :=
  forall st, managedRepos (snd (m st)) = managedRepos st.

(** A computation that only reads: it leaves the whole state as it found
    it. *)
Definition readsOnly {World A : Type} (m : M World A) : Prop :=
  forall st, snd (m st) = st.

(** The command [runGit] runs, and the commands of [open], in order. *)
Definition runGitCmd {lib : Library} {World : Type} {sys : System World} (gitDir authentication : string) (arg : list string)
  : Cmd :=
  {| Path := gitBinary; Args := gitArgs authentication arg; Env := [];
     Dir := gitDir; Stdin := "" |}.

Definition openCommands {lib : Library} {World : Type} {sys : System World} (r : managedRepository) : list Cmd :=
  map (runGitCmd (localDiskPath r) "")
    [ ["init"; "--bare"];
      ["config"; "protocol.version"; "2"];
      ["config"; "uploadpack.allowfilter"; "1"];
      ["config"; "uploadpack.allowrefinwant"; "1"];
      ["config"; "repack.writebitmaps"; "1"];
      ["config"; "http.version"; "HTTP/1.1"];
      ["remote"; "add"; "--mirror=fetch"; "origin"; URL_String (upstreamURL r)] ].

(** What C7 says of a reply: 401, a WWW-Authenticate header, the content
    type of the advertisement, and a body that holds the word. *)
Definition claimedUnauthorized (reply : Reply) : Prop :=
  exists resp,
    reply = Respond resp /\
    Goproxy.StatusCode resp = 401 /\
    Http.Get (Goproxy.Header resp) "WWW-Authenticate" <> "" /\
    Http.Get (Goproxy.Header resp) "Content-Type"
      = "application/x-git-upload-pack-advertisement" /\
    Strings.Contains (Goproxy.Body resp) "unauthorized" = true.

(** The request [lsRefsUpstream] sends. *)
Definition lsRefsRequest {lib : Library}
    (r : managedRepository) (command : list Gitprotocolio.ProtocolV2RequestChunk)
    (authentication : string) : Http.ClientRequest :=
  let header := Http.Add [] "Content-Type" "application/x-git-upload-pack-request" in
  let header := Http.Add header "Accept" "application/x-git-upload-pack-result" in
  let header := Http.Add header "Git-Protocol" "version=2" in
  let header :=
    if negb (String.eqb authentication "")
    then Http.Add header "Authorization" authentication
    else header in
  {| Http.reqMethod := "POST";
     Http.reqURL := URL_String (upstreamURL r) +:+ "/git-upload-pack";
     Http.reqHeader := header;
     Http.reqBody := newGitRequest command |}.




(** The command of [serveFetchLocal]. *)
Definition uploadPackCmd {lib : Library} {World : Type} {sys : System World}
    (r : managedRepository) (command : list Gitprotocolio.ProtocolV2RequestChunk)
  : Cmd :=
  {| Path := gitBinary;
     Args := [gitBinary; "upload-pack"; "--stateless-rpc"; localDiskPath r];
     Env := ["GIT_PROTOCOL=version=2"];
     Dir := localDiskPath r;
     Stdin := newGitRequest command |}.

(** ** Vocabulary of the further properties *)

(** The tails of a key that start inside it: [k[i:]] for [0 < i < len(k)]. *)
Fixpoint properTails (k : string) : list string :=
  match k with
  | EmptyString => []
  | String _ k' =>
      match k' with
      | EmptyString => []
      | String _ _ => k' :: properTails k'
      end
  end.

(** A match of the key [k] could begin before a text [s] and end inside it:
    some tail of [k] that starts inside [k] is a prefix of [s]. *)
Definition straddles (k s : string) : bool :=
  existsb (Strings.HasPrefix s) (properTails k).

(** The byte [c] occurs in [s]. *)
Fixpoint hasByte (c : ascii) (s : string) : bool :=
  match s with
  | EmptyString => false
  | String d s' => Ascii.eqb d c || hasByte c s'
  end.

(** A command as the dispatcher expects it: not empty, named ls-refs or
    fetch by its first chunk, and with no end-of-request chunk inside. *)
Definition wellFormedCommand
    (command : list Gitprotocolio.ProtocolV2RequestChunk) : Prop :=
  (exists chunk0 rest,
      command = chunk0 :: rest /\
      (Gitprotocolio.Command chunk0 = "ls-refs" \/
       Gitprotocolio.Command chunk0 = "fetch")) /\
  Forall (fun c => Gitprotocolio.EndRequest c = false) command.

(** The two commands of [fetchUpstream]: heads and changes first, then
    everything. *)
Definition fetchHeadsCmd {lib : Library} {World : Type} {sys : System World}
    (r : managedRepository) (authentication : string) : Cmd :=
  runGitCmd (localDiskPath r) authentication
    ["fetch"; "--progress"; "-f"; "-n"; "origin";
     "refs/heads/*:refs/heads/*"; "refs/changes/*:refs/changes/*"].

Definition fetchAllCmd {lib : Library} {World : Type} {sys : System World}
    (r : managedRepository) (authentication : string) : Cmd :=
  runGitCmd (localDiskPath r) authentication
    ["fetch"; "--progress"; "-f"; "origin"].

(** ** Vocabulary of the credential of a request *)

(** A computation adds to the trace only effects that pass the test. *)
Definition emitsOnly {World A : Type} (P : Effect -> Prop) (m : M World A) : Prop :=
  forall st, exists new, trace (snd (m st)) = trace st ++ new /\ Forall P new.

(** What a request to /git-upload-pack may do for the mirror [repository]
    with the credential [credential]: make the directory of the mirror, run
    the commands of [open] and upload-pack (they carry no credential), send
    an ls-refs request that carries the credential, start a fetch task with
    the credential, and run the two fetches with the credential. *)
Definition usesCredential {lib : Library} {World : Type} {sys : System World}
    (repository : managedRepository) (credential : string) (e : Effect) : Prop :=
  match e with
  | EffMkdir path => path = localDiskPath repository
  | EffExec cmd =>
      cmd ∈ openCommands repository \/
      (exists command, cmd = uploadPackCmd repository command) \/
      cmd = fetchHeadsCmd repository credential \/
      cmd = fetchAllCmd repository credential
  | EffHTTP req => exists command, req = lsRefsRequest repository command credential
  | EffGo r authentication => r = repository /\ authentication = credential
  end.

(** ** Further inputs *)
Module Inputs.

(** [POST /private/r.git/git-upload-pack] with a fetch command and another
    credential than the one the mirror was created with. *)
Definition privateUploadPackRequest : Request :=
  {| URL := Demo.url "/private/r.git/git-upload-pack" "";
     Header := [("Authorization", "Basic b3RoZXI=")];
     Body := ("command=fetch" +:+ String "010"
                ("want aaaaaaaaaaaaaaaaaaaaaaaaaaaaaaaaaaaaaaaa" +:+ String "010" "0000"),
              None) |}.

(** [POST /r.git/git-upload-pack] with the command push-certs. *)
Definition pushCertsRequest : Request :=
  {| URL := Demo.url "/r.git/git-upload-pack" "";
     Header := [];
     Body := ("command=push-certs" +:+ String "010" "0000", None) |}.

(** The advertisement of the private mirror asked for with an
    Authorization header that is no credential at all. *)
Definition infoRefsWithHeader : Request :=
  {| URL := Demo.url "/private/r.git/info/refs" "service=git-upload-pack";
     Header := [("Authorization", "anything")]; Body := ("", None) |}.

(** A world in which no directory can be created. *)
Definition readOnlyDisk : Demo.World :=
  {| Demo.directories := []; Demo.mkdirFails := true; Demo.gitFails := false;
     Demo.objects := []; Demo.references := [];
     Demo.upstreamStatus := 200; Demo.upstreamBody := "" |}.

(** A world whose upstream answers 404. *)
Definition upstreamGone : Demo.World :=
  {| Demo.directories := []; Demo.mkdirFails := false; Demo.gitFails := false;
     Demo.objects := []; Demo.references := [];
     Demo.upstreamStatus := 404; Demo.upstreamBody := "" |}.

(** A world whose local repository holds the wanted object and HEAD. *)
Definition warm : Demo.World :=
  {| Demo.directories := ["/cache/example.invalid/org/repo"];
     Demo.mkdirFails := false; Demo.gitFails := false;
     Demo.objects := ["aaaaaaaaaaaaaaaaaaaaaaaaaaaaaaaaaaaaaaaa"];
     Demo.references := [("HEAD", "aaaaaaaaaaaaaaaaaaaaaaaaaaaaaaaaaaaaaaaa")];
     Demo.upstreamStatus := 200; Demo.upstreamBody := "" |}.

(** [POST /org/repo.git/git-upload-pack] with an ls-refs command and the
    credential [Basic YWJj]. *)
Definition lsRefsWithCredential : Request :=
  {| URL := Demo.url "/org/repo.git/git-upload-pack" "";
     Header := [("Authorization", "Basic YWJj")];
     Body := ("command=ls-refs" +:+ String "010" "0000", None) |}.




End Inputs.

(* ===================================================================== *)
(** * Part III. Properties                                                *)
(* ===================================================================== *)

(** ** Strings *)

Lemma string_app_nil_l (s : string) : "" +:+ s = s.
Proof. reflexivity. Qed.

Lemma string_app_cons (c : ascii) (s t : string) : String c s +:+ t = String c (s +:+ t).
Proof. reflexivity. Qed.

Lemma string_app_nil_r (s : string) : s +:+ "" = s.
Proof. induction s as [|c s IH]; [reflexivity|]. rewrite string_app_cons. by f_equal. Qed.

Lemma string_app_assoc (s t u : string) : (s +:+ t) +:+ u = s +:+ (t +:+ u).
Proof. induction s as [|c s IH]; [reflexivity|]. rewrite !string_app_cons. by f_equal. Qed.

Lemma string_length_app (s t : string) :
  String.length (s +:+ t) = String.length s + String.length t.
Proof. induction s as [|c s IH]; [reflexivity|]. rewrite string_app_cons. simpl. lia. Qed.

Lemma substring_all (s : string) : String.substring 0 (String.length s) s = s.
Proof. induction s as [|c s IH]; [reflexivity|]. simpl. by f_equal. Qed.

Lemma substring_app_l (q s : string) :
  String.substring 0 (String.length q) (q +:+ s) = q.
Proof.
  induction q as [|c q IH].
  - rewrite string_app_nil_l. by destruct s.
  - rewrite string_app_cons. simpl. by f_equal.
Qed.

Lemma substring_app_r (q s : string) :
  String.substring (String.length q) (String.length s) (q +:+ s) = s.
Proof.
  induction q as [|c q IH].
  - rewrite string_app_nil_l. apply substring_all.
  - rewrite string_app_cons. simpl. exact IH.
Qed.

(** A string splits at any position within it. *)
Lemma substring_split (n : nat) (s : string) :
  n <= String.length s ->
  s = String.substring 0 n s +:+ String.substring n (String.length s - n) s.
Proof.
  revert s. induction n as [|n IH]; intros s Hn.
  - rewrite Nat.sub_0_r, substring_all. by destruct s.
  - destruct s as [|c s]; simpl in *; [lia|].
    rewrite string_app_cons. f_equal. apply IH. lia.
Qed.

Lemma HasPrefix_app (p s : string) : Strings.HasPrefix (p +:+ s) p = true.
Proof.
  induction p as [|c p IH]; [reflexivity|].
  rewrite string_app_cons. simpl. by rewrite Ascii.eqb_refl.
Qed.

Lemma HasPrefix_spec (s p : string) :
  Strings.HasPrefix s p = true <-> exists t, s = p +:+ t.
Proof.
  split.
  - revert s. induction p as [|c p IH]; intros s Hs.
    + by exists s.
    + destruct s as [|d s]; simpl in Hs; [done|].
      destruct (Ascii.eqb d c) eqn:E; [|done].
      apply Ascii.eqb_eq in E as ->.
      destruct (IH _ Hs) as [t ->]. by exists t.
  - intros [t ->]. apply HasPrefix_app.
Qed.

Lemma HasSuffix_spec (s suffix : string) :
  Strings.HasSuffix s suffix = true <-> exists q, s = q +:+ suffix.
Proof.
  unfold Strings.HasSuffix. split.
  - intros [Hlen Heq]%andb_true_iff.
    apply Nat.leb_le in Hlen. apply String.eqb_eq in Heq.
    exists (String.substring 0 (String.length s - String.length suffix) s).
    pose proof (substring_split (String.length s - String.length suffix) s) as Hsplit.
    replace (String.length s - (String.length s - String.length suffix))
      with (String.length suffix) in Hsplit by lia.
    rewrite Heq in Hsplit. apply Hsplit. lia.
  - intros [q ->]. rewrite string_length_app. apply andb_true_iff. split.
    + apply Nat.leb_le. lia.
    + replace (String.length q + String.length suffix - String.length suffix)
        with (String.length q) by lia.
      rewrite substring_app_r. apply String.eqb_refl.
Qed.

Lemma TrimSuffix_app (q suffix : string) :
  Strings.TrimSuffix (q +:+ suffix) suffix = q.
Proof.
  unfold Strings.TrimSuffix.
  rewrite (proj2 (HasSuffix_spec _ _)) by by exists q.
  rewrite string_length_app.
  replace (String.length q + String.length suffix - String.length suffix)
    with (String.length q) by lia.
  apply substring_app_l.
Qed.

(** Two ways to cut the same string: one tail is a tail of the other. *)
Lemma app_eq_app_tails (q q' a b : string) :
  q +:+ a = q' +:+ b ->
  Strings.HasSuffix a b = true \/ Strings.HasSuffix b a = true.
Proof.
  revert q'. induction q as [|c q IH]; intros q' Heq.
  - left. apply HasSuffix_spec. exists q'. by rewrite string_app_nil_l in Heq.
  - destruct q' as [|c' q'].
    + right. apply HasSuffix_spec. exists (String c q). by rewrite string_app_nil_l in Heq.
    + rewrite !string_app_cons in Heq. injection Heq as _ Heq. by apply IH in Heq.
Qed.

(** A suffix that cannot be told apart from [suffix] by their tails is the
    only way [HasSuffix] can hold of [q +:+ suffix]. *)
Lemma HasSuffix_app_other (q suffix other : string) :
  Strings.HasSuffix suffix other = false ->
  Strings.HasSuffix other suffix = false ->
  Strings.HasSuffix (q +:+ suffix) other = false.
Proof.
  intros H1 H2. destruct (Strings.HasSuffix (q +:+ suffix) other) eqn:E; [|done].
  apply HasSuffix_spec in E as [q' E].
  apply app_eq_app_tails in E as [E|E]; congruence.
Qed.

(** ** The canonical URL *)

Lemma urlFixer_Path (u : Url.URL) :
  Url.Path (urlFixer u) =
    if Strings.HasSuffix (Url.Path u) "/info/refs"
    then Strings.TrimSuffix (Url.Path u) "/info/refs"
    else if Strings.HasSuffix (Url.Path u) "/git-receive-pack"
    then Strings.TrimSuffix (Url.Path u) "/git-receive-pack"
    else if Strings.HasSuffix (Url.Path u) "/git-upload-pack"
    then Strings.TrimSuffix (Url.Path u) "/git-upload-pack"
    else Url.Path u.
Proof.
  unfold urlFixer. simpl.
  repeat (match goal with
          | |- context [if ?b then _ else _] => destruct b
          end; try reflexivity).
Qed.

Lemma urlFixer_rest (u : Url.URL) :
  urlFixer u =
    {| Url.Scheme := "https"; Url.Opaque := ""; Url.User := None;
       Url.Host := Url.Host u; Url.Path := Url.Path (urlFixer u);
       Url.RawPath := ""; Url.ForceQuery := false; Url.RawQuery := "";
       Url.Fragment := ""; Url.RawFragment := "" |}.
Proof.
  unfold urlFixer. simpl.
  repeat (match goal with
          | |- context [if ?b then _ else _] => destruct b
          end; try reflexivity).
Qed.

(** C8. For every input URL the canonicalizer yields a URL whose scheme is
    https, whose host is the input's, which has no userinfo, no query and no
    fragment, and whose path is the input's path with a trailing
    /info/refs, /git-receive-pack or /git-upload-pack taken off (and the
    input's path itself when it ends in none of them). *)
Theorem urlFixer_canonical (u : Url.URL) :
  Url.Scheme (urlFixer u) = "https" /\
  Url.Host (urlFixer u) = Url.Host u /\
  Url.User (urlFixer u) = None /\
  (Url.RawQuery (urlFixer u) = "" /\ Url.ForceQuery (urlFixer u) = false) /\
  (Url.Fragment (urlFixer u) = "" /\ Url.RawFragment (urlFixer u) = "") /\
  (forall q suffix,
      suffix ∈ serviceSuffixes -> Url.Path u = q +:+ suffix ->
      Url.Path (urlFixer u) = q) /\
  ((forall q suffix, suffix ∈ serviceSuffixes -> Url.Path u <> q +:+ suffix) ->
   Url.Path (urlFixer u) = Url.Path u).
Proof.
  rewrite (urlFixer_rest u) at 1 2 3 4 5 6 7. simpl.
  repeat split; rewrite urlFixer_Path.
  - intros q suffix Hin Hpath. rewrite Hpath. unfold serviceSuffixes in Hin.
    apply elem_of_cons in Hin as [->|Hin].
    { rewrite (proj2 (HasSuffix_spec _ _)) by by exists q. apply TrimSuffix_app. }
    apply elem_of_cons in Hin as [->|Hin].
    { rewrite (HasSuffix_app_other q "/git-receive-pack" "/info/refs") by reflexivity.
      rewrite (proj2 (HasSuffix_spec _ "/git-receive-pack")) by by exists q.
      apply TrimSuffix_app. }
    apply list_elem_of_singleton in Hin as ->.
    rewrite (HasSuffix_app_other q "/git-upload-pack" "/info/refs") by reflexivity.
    rewrite (HasSuffix_app_other q "/git-upload-pack" "/git-receive-pack") by reflexivity.
    rewrite (proj2 (HasSuffix_spec _ "/git-upload-pack")) by by exists q.
    apply TrimSuffix_app.
  - intros Hnone.
    assert (Hno : forall suffix, suffix ∈ serviceSuffixes ->
                    Strings.HasSuffix (Url.Path u) suffix = false).
    { intros suffix Hin. destruct (Strings.HasSuffix _ suffix) eqn:E; [|done].
      apply HasSuffix_spec in E as [q E]. by destruct (Hnone q suffix Hin). }
    rewrite !Hno; [done | | |]; unfold serviceSuffixes; set_solver.
Qed.

(** ** The local path *)

(** C5. The local path is the join of the cache root, the host and the
    stripped path; but the strip deletes the four strings wherever they
    stand in the path, not at its end only, and it is not idempotent: on
    /a.g.gitit one pass leaves /a.git and a second pass leaves /a. *)
Theorem stripGitSuffixes_not_idempotent :
  (forall config u,
      getLocalGitRepositoryPath config u =
        Filepath.Join [LocalDiskCacheRoot config; Url.Host u;
                       stripGitSuffixes (Url.Path u)]) /\
  stripGitSuffixes "/a.g.gitit" = "/a.git" /\
  stripGitSuffixes (stripGitSuffixes "/a.g.gitit") = "/a" /\
  stripGitSuffixes (stripGitSuffixes "/a.g.gitit") <> stripGitSuffixes "/a.g.gitit" /\
  stripGitSuffixes "/octocat/octocat.github.io" = "/octocat/octocathub.io".
Proof.
  split; [reflexivity|]. repeat split; try reflexivity.
  vm_compute. discriminate.
Qed.

(** A path that ends in .git and holds none of the four strings before
    that loses exactly the suffix: the case the name of the function
    describes. *)
Example stripGitSuffixes_repo :
  stripGitSuffixes "/org/repo.git" = "/org/repo" /\
  stripGitSuffixes "/org/repo.git/info/refs" = "/org/repo" /\
  getLocalGitRepositoryPath Demo.config (Demo.url "/org/repo.git/git-upload-pack" "")
    = "/cache/example.invalid/org/repo".
Proof. repeat split; reflexivity. Qed.

(** ** The registry *)

(** C3. A mirror the registry creates is stored under its local path; with
    a non-empty credential it is private and its access list is that
    credential alone, with the empty credential it is public and its access
    list is empty. So a new mirror is public with an empty list exactly when
    the creation carried no credential. *)
Theorem createManagedRepository_access
    {World : Type} (config : ServerConfig) (u : Url.URL) (auth : string)
    (st : State World) :
  let repository := fst (createManagedRepository config u auth st) in
  let st' := snd (createManagedRepository config u auth st) in
  managedRepos st' !! localDiskPath repository = Some repository /\
  localDiskPath repository = getLocalGitRepositoryPath config (urlFixer u) /\
  (if decide (auth = "")
   then isPublic repository = true /\ accessList repository = []
   else isPublic repository = false /\ accessList repository = [auth]) /\
  ((isPublic repository = true /\ accessList repository = []) <-> auth = "").
Proof.
  unfold createManagedRepository. simpl.
  destruct (String.eqb_spec auth "") as [->|Hne]; simpl.
  - rewrite lookup_insert_eq. by repeat split.
  - rewrite lookup_insert_eq. rewrite decide_False by done.
    repeat split; try done. by intros [? _].
Qed.

(** ** The matcher *)

Lemma matches_NoMatch (s : string) : Regexp.matches Regexp.NoMatch s = false.
Proof. induction s as [|c s IH]; [reflexivity|exact IH]. Qed.

Lemma matches_EmptyMatch (s : string) :
  Regexp.matches Regexp.EmptyMatch s = true <-> s = "".
Proof.
  destruct s as [|c s]; simpl; [done|].
  rewrite matches_NoMatch. split; discriminate.
Qed.

Lemma matches_Alternate (r1 r2 : Regexp.regex) (s : string) :
  Regexp.matches (Regexp.Alternate r1 r2) s =
    Regexp.matches r1 s || Regexp.matches r2 s.
Proof.
  revert r1 r2. induction s as [|c s IH]; intros r1 r2; [reflexivity|].
  simpl. apply IH.
Qed.

Lemma matches_Lit (d : ascii) (s : string) :
  Regexp.matches (Regexp.Lit d) s = true <-> s = String d "".
Proof.
  destruct s as [|c s]; simpl; [split; discriminate|].
  destruct (Ascii.eqb_spec c d) as [->|Hne].
  - rewrite matches_EmptyMatch. split; [by intros ->|by intros [= ->]].
  - rewrite matches_NoMatch. split; [discriminate|by intros [= -> _]].
Qed.

(** A concatenation matches the strings that split into a match of each
    part. *)
Lemma matches_Concat (r1 r2 : Regexp.regex) (s : string) :
  Regexp.matches (Regexp.Concat r1 r2) s = true <->
  exists s1 s2,
    s = s1 +:+ s2 /\ Regexp.matches r1 s1 = true /\ Regexp.matches r2 s2 = true.
Proof.
  revert r1. induction s as [|c s IH]; intros r1.
  - simpl. rewrite andb_true_iff. split.
    + intros [H1 H2]. by exists "", "".
    + intros ([|? ?] & [|? ?] & Heq & H1 & H2); try discriminate Heq. done.
  - simpl. destruct (Regexp.nullable r1) eqn:Hnull.
    + rewrite matches_Alternate, orb_true_iff, IH. split.
      * intros [(s1 & s2 & -> & H1 & H2) | H2].
        -- by exists (String c s1), s2.
        -- by exists "", (String c s).
      * intros ([|c1 s1] & s2 & Heq & H1 & H2).
        -- right. rewrite string_app_nil_l in Heq. by subst s2.
        -- left. rewrite string_app_cons in Heq. injection Heq as -> ->. by exists s1, s2.
    + rewrite IH. split.
      * intros (s1 & s2 & -> & H1 & H2). by exists (String c s1), s2.
      * intros ([|c1 s1] & s2 & Heq & H1 & H2).
        -- simpl in H1. congruence.
        -- rewrite string_app_cons in Heq. injection Heq as -> ->. by exists s1, s2.
Qed.

Lemma matches_Literal (lit s : string) :
  Regexp.matches (Regexp.Literal lit) s = true <-> s = lit.
Proof.
  revert s. induction lit as [|c lit IH]; intros s; simpl.
  - apply matches_EmptyMatch.
  - rewrite matches_Concat. split.
    + intros (s1 & s2 & -> & H1%matches_Lit & H2%IH). by subst.
    + intros ->. exists (String c ""), lit. repeat split.
      * by apply matches_Lit.
      * by apply IH.
Qed.

Lemma matches_Capture (r : Regexp.regex) (s : string) :
  Regexp.matches (Regexp.Capture r) s = Regexp.matches r s.
Proof. by destruct s. Qed.

(** A starred class matches the strings made of bytes of the class. *)
Lemma matches_Star_CharClass (ranges : list (ascii * ascii)) (s : string) :
  Regexp.matches (Regexp.Star (Regexp.CharClass ranges)) s =
    allBytes (Regexp.inClass ranges) s.
Proof.
  induction s as [|c s IH]; [reflexivity|].
  simpl. destruct (Regexp.inClass ranges c); simpl.
  - rewrite <- IH. apply eq_true_iff_eq.
    rewrite matches_Concat. split.
    + intros (s1 & s2 & -> & ->%matches_EmptyMatch & H2). by rewrite string_app_nil_l.
    + intros Hs. by exists "", s.
  - apply not_true_is_false. intros E.
    apply matches_Concat in E as (s1 & s2 & _ & H1 & _).
    by rewrite matches_NoMatch in H1.
Qed.

(** What the pattern of [handleGitUploadPack] matches. *)
Lemma basicAuthRegexp_matches (header : string) :
  Regexp.matches (Regexp.expr basicAuthRegexp) header = true <->
  basicAuthHeader header.
Proof.
  unfold basicAuthHeader. cbn [basicAuthRegexp Regexp.expr].
  rewrite matches_Concat. split.
  - intros (s1 & s2 & -> & ->%matches_Literal & H2).
    rewrite matches_Capture, matches_Star_CharClass in H2. by exists s2.
  - intros (token & -> & Htoken). exists "Basic ", token.
    split; [reflexivity|]. split.
    + by apply matches_Literal.
    + by rewrite matches_Capture, matches_Star_CharClass.
Qed.

Lemma FindString_basicAuth (header : string) :
  (basicAuthHeader header /\ Regexp.FindString basicAuthRegexp header = header) \/
  (~ basicAuthHeader header /\ Regexp.FindString basicAuthRegexp header = "").
Proof.
  unfold Regexp.FindString. cbn [Regexp.beginText basicAuthRegexp].
  fold basicAuthRegexp.
  destruct (Regexp.matches (Regexp.expr basicAuthRegexp) header) eqn:E.
  - left. split; [by apply basicAuthRegexp_matches|done].
  - right. split; [|done]. intros Hm%basicAuthRegexp_matches. congruence.
Qed.

(** ** The credential of a request *)

Lemma hasByte_app (c : ascii) (a b : string) :
  hasByte c (a +:+ b) = hasByte c a || hasByte c b.
Proof.
  induction a as [|d a IH]; [reflexivity|].
  rewrite string_app_cons. simpl. by rewrite IH, orb_assoc.
Qed.

(** Off the backslash the class of the code and the class of the
    specification hold the same bytes. *)
Lemma inClass_basicAuth_spec (c : ascii) :
  c <> "\"%char ->
  Regexp.inClass basicAuthClass c = Regexp.inClass specAuthClass c.
Proof.
  intros Hc. destruct c as [[] [] [] [] [] [] [] []];
    first [reflexivity | by destruct Hc].
Qed.

Lemma allBytes_basicAuth_spec (token : string) :
  hasByte "\" token = false ->
  allBytes (Regexp.inClass basicAuthClass) token =
    allBytes (Regexp.inClass specAuthClass) token.
Proof.
  induction token as [|c token IH]; [reflexivity|].
  simpl. intros [Hc Htoken]%orb_false_iff.
  rewrite IH by done. f_equal. apply inClass_basicAuth_spec.
  intros ->. discriminate Hc.
Qed.

(** On a header without a backslash, [FindString] of the pattern of the
    code gives the whole match of the pattern of the specification. *)
Lemma FindString_specWholeMatch (header : string) :
  hasByte "\" header = false ->
  Regexp.FindString basicAuthRegexp header = specWholeMatch header.
Proof.
  intros Hheader. unfold Regexp.FindString, specWholeMatch.
  cbn [Regexp.beginText Regexp.expr basicAuthRegexp].
  assert (Hsame :
    Regexp.matches
      (Regexp.Concat (Regexp.Literal "Basic ")
         (Regexp.Capture (Regexp.Star (Regexp.CharClass basicAuthClass)))) header
    = Regexp.matches specAuthRegexp header); [|by rewrite Hsame].
  apply eq_true_iff_eq. unfold specAuthRegexp. rewrite !matches_Concat.
  split; intros (s1 & s2 & -> & Hs1 & Hs2); exists s1, s2;
    (split; [done|]; split; [done|]);
    rewrite hasByte_app in Hheader; apply orb_false_iff in Hheader as [_ Hs2'];
    rewrite matches_Capture, matches_Star_CharClass in Hs2 |- *.
  - by rewrite <- allBytes_basicAuth_spec.
  - by rewrite allBytes_basicAuth_spec.
Qed.

(** C4 as stated fails. For the header [Basic YWJj] the credential is the
    whole header, where the capture group is [YWJj]: the mirror that the
    request creates lists the whole header. And a header with a backslash in
    its token, which the pattern of the specification does not match, is
    taken whole as well. *)
Lemma basicAuth_is_not_the_group :
  Regexp.FindString basicAuthRegexp "Basic YWJj" = "Basic YWJj" /\
  specCredential "Basic YWJj" = "YWJj" /\
  Regexp.FindString basicAuthRegexp "Basic YWJj" <> specCredential "Basic YWJj" /\
  accessList <$>
    (managedRepos
       (snd (handleGitUploadPack (lib := Demo.library) (sys := Demo.system)
               Inputs.lsRefsWithCredential Demo.config (fun _ => [])
               (Demo.start Demo.cold)))
     !! "/cache/example.invalid/org/repo") = Some ["Basic YWJj"] /\
  Regexp.FindString basicAuthRegexp "Basic a\b" = "Basic a\b" /\
  specCredential "Basic a\b" = "".
Proof.
  split; [reflexivity|]. split; [reflexivity|].
  split; [vm_compute; discriminate|].
  split; [vm_compute; reflexivity|]. split; reflexivity.
Qed.

Lemma basicAuthHeader_token (token : string) :
  basicAuthHeader ("Basic " +:+ token) <->
  allBytes (Regexp.inClass basicAuthClass) token = true.
Proof.
  unfold basicAuthHeader. split.
  - intros (token' & Heq & Htoken).
    cbv [String.append] in Heq. by injection Heq as ->.
  - intros Htoken. by exists token.
Qed.

(** ** The registry is touched by creation only *)

Section Frame.
Context {lib : Library} {World : Type} {sys : System World}.

Lemma keeps_ret {A} (a : A) : keepsRegistry (World := World) (ret a).
Proof. by intros st. Qed.

Lemma keeps_bind {A B} (m : M World A) (k : A -> M World B) :
  keepsRegistry m -> (forall a, keepsRegistry (k a)) -> keepsRegistry (bind m k).
Proof.
  intros Hm Hk st. unfold bind. specialize (Hm st).
  destruct (m st) as [a st1]. simpl in Hm. by rewrite Hk.
Qed.

Lemma keeps_emit (e : Effect) : keepsRegistry (emit (World := World) e).
Proof. by intros st. Qed.

Lemma keeps_meanwhile (env : World -> World) : keepsRegistry (meanwhile env).
Proof. by intros st. Qed.

Lemma keeps_Stat (path : string) : keepsRegistry (Stat path).
Proof. by intros st. Qed.

Lemma keeps_MkdirAll (path : string) : keepsRegistry (MkdirAll path).
Proof. intros st. unfold MkdirAll. by destruct (os_MkdirAll _ _). Qed.

Lemma keeps_Run (cmd : Cmd) : keepsRegistry (Run cmd).
Proof. intros st. unfold Run. by destruct (exec_Run _ _). Qed.

Lemma keeps_PlainOpen (path : string) : keepsRegistry (PlainOpen path).
Proof. by intros st. Qed.

Lemma keeps_Do (req : Http.ClientRequest) : keepsRegistry (Do req).
Proof. intros st. unfold Do. by destruct (http_Do _ _). Qed.

Lemma keeps_rangeMap (m : gmap string Hash) : keepsRegistry (rangeMap m).
Proof. by intros st. Qed.

Lemma keeps_getManagedRepository (config : ServerConfig) (u : Url.URL) :
  keepsRegistry (getManagedRepository (World := World) config u).
Proof. by intros st. Qed.

End Frame.

Create HintDb registry.

#[global] Hint Resolve keeps_ret keeps_emit keeps_meanwhile keeps_Stat
  keeps_MkdirAll keeps_Run keeps_PlainOpen keeps_Do keeps_rangeMap
  keeps_getManagedRepository : registry.

(** One step of a frame proof: through a bind, into a branch, or closed by
    a lemma of the hint base. *)
Ltac keeps_step :=
  match goal with
  | |- keepsRegistry (bind _ _) => apply keeps_bind; [|intros ?]
  | |- keepsRegistry (match ?x with _ => _ end) => destruct x
  | |- keepsRegistry (if ?b then _ else _) => destruct b
  | |- keepsRegistry (let _ := _ in _) => cbv zeta
  | |- keepsRegistry _ => solve [auto with registry]
  end.

Ltac keeps := repeat keeps_step.

Section FrameOfProgram.
Context {lib : Library} {World : Type} {sys : System World}.

Lemma keeps_runGit (gitDir authentication : string) (arg : list string) :
  keepsRegistry (runGit gitDir authentication arg).
Proof. unfold runGit. keeps. Qed.
Hint Resolve keeps_runGit : registry.

Lemma keeps_open (r : managedRepository) : keepsRegistry (open r).
Proof. unfold open. keeps. Qed.

Lemma keeps_fetchUpstream (r : managedRepository) (authentication : string) :
  keepsRegistry (fetchUpstream r authentication).
Proof. unfold fetchUpstream. keeps. Qed.

Lemma keeps_hasAllWants r (hashes : list Hash) (refs : list string) :
  keepsRegistry (hasAllWants r hashes refs).
Proof. unfold hasAllWants. keeps. Qed.

Lemma keeps_hasAnyUpdate r (refs : gmap string Hash) :
  keepsRegistry (hasAnyUpdate r refs).
Proof. unfold hasAnyUpdate. keeps. Qed.

Lemma keeps_lsRefsUpstream r command (authentication : string) :
  keepsRegistry (lsRefsUpstream r command authentication).
Proof. unfold lsRefsUpstream. keeps. Qed.

Lemma keeps_serveFetchLocal r command (w : string) :
  keepsRegistry (serveFetchLocal r command w).
Proof. unfold serveFetchLocal. keeps. Qed.

Hint Resolve keeps_open keeps_fetchUpstream keeps_hasAllWants
  keeps_hasAnyUpdate keeps_lsRefsUpstream keeps_serveFetchLocal : registry.

Lemma keeps_wantWaitLoop schedule repo (hashes : list Hash) (refs : list string)
    (authentication : string) :
  keepsRegistry (wantWaitLoop schedule repo hashes refs authentication).
Proof.
  induction schedule as [|[event env] schedule IH]; simpl; keeps.
Qed.
Hint Resolve keeps_wantWaitLoop : registry.

Lemma keeps_handleV2Command schedule repo command (w authentication : string) :
  keepsRegistry (handleV2Command schedule repo command w authentication).
Proof. unfold handleV2Command. keeps. Qed.
Hint Resolve keeps_handleV2Command : registry.

Lemma keeps_handleCommands schedules i repository commands (buff auth : string) :
  keepsRegistry (handleCommands schedules i repository commands buff auth).
Proof.
  revert i buff. induction commands as [|command commands IH]; intros i buff;
    simpl; keeps.
Qed.

End FrameOfProgram.

(** ** Running a computation *)

Lemma bind_run {World A B} (m : M World A) (k : A -> M World B) (st : State World) :
  bind m k st = k (fst (m st)) (snd (m st)).
Proof. unfold bind. by destruct (m st). Qed.

Section Mirror.
Context {lib : Library} {World : Type} {sys : System World}.

Lemma runGit_trace (gitDir authentication : string) (arg : list string)
    (st : State World) :
  trace (snd (runGit gitDir authentication arg st)) =
    trace st ++ [EffExec (runGitCmd gitDir authentication arg)].
Proof.
  unfold runGit. rewrite bind_run. fold (runGitCmd gitDir authentication arg).
  assert (Hrun : trace (snd (Run (runGitCmd gitDir authentication arg) st)) =
                   trace st ++ [EffExec (runGitCmd gitDir authentication arg)]).
  { unfold Run. by destruct (exec_Run _ _). }
  by destruct (snd (fst (Run _ st))).
Qed.

Lemma MkdirAll_run (path : string) (st : State World) :
  MkdirAll path st =
    (fst (os_MkdirAll path (world st)),
     mkState (snd (os_MkdirAll path (world st))) (managedRepos st)
             (trace st ++ [EffMkdir path])).
Proof. unfold MkdirAll. by destruct (os_MkdirAll _ _). Qed.

(** The commands of a fresh mirror: all seven are run, and nothing of
    what they return is looked at. *)
Lemma open_init_commands (r : managedRepository) (st : State World) :
  let init :=
    (runGit (localDiskPath r) "" ["init"; "--bare"] ;;;
     runGit (localDiskPath r) "" ["config"; "protocol.version"; "2"] ;;;
     runGit (localDiskPath r) "" ["config"; "uploadpack.allowfilter"; "1"] ;;;
     runGit (localDiskPath r) "" ["config"; "uploadpack.allowrefinwant"; "1"] ;;;
     runGit (localDiskPath r) "" ["config"; "repack.writebitmaps"; "1"] ;;;
     runGit (localDiskPath r) "" ["config"; "http.version"; "HTTP/1.1"] ;;;
     runGit (localDiskPath r) ""
       ["remote"; "add"; "--mirror=fetch"; "origin"; URL_String (upstreamURL r)] ;;;
     ret None) in
  fst (init st) = @None error /\
  trace (snd (init st)) = trace st ++ map EffExec (openCommands r).
Proof.
  cbv zeta. rewrite !bind_run. simpl. split; [done|].
  rewrite !runGit_trace. simpl. by rewrite <- !app_assoc.
Qed.

(** C10. Opening a mirror fails only when the stat of the local path
    fails with an error other than not-exist, or when the directory cannot
    be created. When the path does not exist and the directory is created,
    the seven git commands are run in order and open returns nil whatever
    they return: their errors are dropped. *)
Theorem open_error_only_from_stat_or_mkdir (r : managedRepository) (st : State World) :
  let path := localDiskPath r in
  (is_Some (fst (open r st)) <->
     (exists e, os_Stat path (world st) = StatError e) \/
     (os_Stat path (world st) = StatNotExist /\
      is_Some (fst (os_MkdirAll path (world st))))) /\
  (os_Stat path (world st) = StatNotExist ->
   fst (os_MkdirAll path (world st)) = None ->
   fst (open r st) = None /\
   trace (snd (open r st)) =
     trace st ++ EffMkdir path :: map EffExec (openCommands r)).
Proof.
  cbv zeta. unfold open. rewrite bind_run. unfold Stat at 1 2. simpl.
  destruct (os_Stat (localDiskPath r) (world st)) as [| |e] eqn:Hstat.
  - simpl. split; [|done].
    split; [by intros [? ?]|]. by intros [[e ?]|[? _]].
  - rewrite bind_run, MkdirAll_run. simpl.
    destruct (os_MkdirAll (localDiskPath r) (world st)) as [[e|] w'] eqn:Hmk; simpl.
    + split; [|by intros _ [=]].
      split; [intros _; right; by eauto|by eauto].
    + match goal with
      | |- context [fst (?init ?st1)] =>
          destruct (open_init_commands r st1) as [Hnil Htrace]
      end.
      rewrite Hnil, Htrace. simpl. split.
      * split; [by intros [? [=]]|]. intros [[e ?]|[_ [? ?]]]; done.
      * intros _ _. split; [done|]. by rewrite <- app_assoc.
  - simpl. split; [|done]. split; [by eauto|by eauto].
Qed.

(** A fetch from the upstream leaves every registered mirror, its
    [lastUpdate] among the rest, as it was. *)
Lemma fetchUpstream_registry (r : managedRepository) (authentication : string)
    (st : State World) :
  managedRepos (snd (fetchUpstream r authentication st)) = managedRepos st.
Proof. apply keeps_fetchUpstream. Qed.

End Mirror.

(** C2. A successful fetch from the upstream records no time: the mirror
    of [https://example.invalid/org/repo.git] is created, opened and fetched
    with success, and its last update time is still the zero time. No fetch,
    in any world, changes a registered mirror. *)
Theorem fetchUpstream_records_no_time :
  let created :=
    createManagedRepository Demo.config (Demo.url "/org/repo.git" "") ""
      (Demo.start Demo.cold) in
  let repository := fst created in
  let opened := open (lib := Demo.library) (sys := Demo.system) repository (snd created) in
  let fetched :=
    fetchUpstream (lib := Demo.library) (sys := Demo.system) repository "" (snd opened) in
  fst opened = None /\
  fst fetched = None /\
  LastUpdateTime <$> (managedRepos (snd fetched) !! localDiskPath repository)
    = Some Time.zero /\
  Time.IsZero (LastUpdateTime repository) = true /\
  (forall (lib : Library) (World : Type) (sys : System World) r authentication st,
      managedRepos (snd (fetchUpstream r authentication st)) = managedRepos st).
Proof.
  cbv zeta. split; [reflexivity|]. split; [reflexivity|].
  split.
  - rewrite fetchUpstream_registry.
    rewrite (keeps_open (lib := Demo.library) (sys := Demo.system)).
    unfold createManagedRepository. simpl. by rewrite lookup_insert_eq.
  - split; [reflexivity|]. intros. apply fetchUpstream_registry.
Qed.

(** ** The HTTP endpoint *)

Section Endpoint.
Context {lib : Library} {World : Type} {sys : System World}.

(** C7, amended. A request for the advertisement of a registered private
    mirror that carries no Authorization header is answered with status
    401, content type text/plain and a body that holds the word
    unauthorized; the state is left as it was. *)
Theorem handleInfoRefs_private_unauthenticated
    (r : Request) (config : ServerConfig) (st : State World)
    (repository : managedRepository) :
  Query_Get (URL r) "service" = "git-upload-pack" ->
  managedRepos st !! getLocalGitRepositoryPath config (URL r) = Some repository ->
  isPublic repository = false ->
  Http.Get (Header r) "Authorization" = "" ->
  exists resp,
    handleInfoRefs r config st = (Respond resp, st) /\
    Goproxy.StatusCode resp = Http.StatusUnauthorized /\
    Http.StatusUnauthorized = 401 /\
    Http.Get (Goproxy.Header resp) "Content-Type" = "text/plain" /\
    Goproxy.Body resp = "unauthorized - please send basic auth credentials" /\
    Strings.Contains (Goproxy.Body resp) "unauthorized" = true.
Proof.
  intros Hservice Hreg Hprivate Hauth.
  eexists. split.
  - unfold handleInfoRefs. rewrite Hservice. simpl.
    rewrite bind_run. unfold managedRepositoryExists at 1 2. simpl.
    rewrite Hreg. rewrite bool_decide_true by by eexists. simpl.
    rewrite bind_run. unfold getManagedRepository. simpl.
    rewrite Hreg, Hprivate, Hauth. simpl. reflexivity.
  - repeat split.
Qed.

(** C9. A request to /git-upload-pack whose Authorization header the
    pattern does not match has the empty credential; when its body parses
    and no mirror is registered under its local path, the mirror it
    creates is registered public, with an empty access list, for the
    canonical URL of the request. *)
Theorem unmatched_credential_registers_public
    (r : Request) (config : ServerConfig) (schedules : nat -> Schedule)
    (st : State World) (body : Http.Reader)
    (commands : list (list Gitprotocolio.ProtocolV2RequestChunk)) :
  ~ basicAuthHeader (Http.Get (Header r) "Authorization") ->
  (if String.eqb (Http.Get (Header r) "Content-Encoding") "gzip"
   then gzip_NewReader (Body r) else inr (Body r)) = inr body ->
  parseAllCommands body = inr commands ->
  managedRepos st !! getLocalGitRepositoryPath config (URL r) = None ->
  Regexp.FindString basicAuthRegexp (Http.Get (Header r) "Authorization") = "" /\
  exists repository,
    managedRepos (snd (handleGitUploadPack r config schedules st))
      = <[getLocalGitRepositoryPath config (urlFixer (URL r)) := repository]>
          (managedRepos st) /\
    upstreamURL repository = urlFixer (URL r) /\
    isPublic repository = true /\
    accessList repository = [].
Proof.
  intros Hheader Hbody Hparse Hnew.
  destruct (FindString_basicAuth (Http.Get (Header r) "Authorization"))
    as [[Hm _]|[_ Hauth]]; [done|].
  split; [done|].
  unfold handleGitUploadPack. cbv zeta. rewrite Hauth, Hbody, Hparse.
  rewrite bind_run. unfold getManagedRepository at 1 2. simpl. rewrite Hnew.
  rewrite bind_run.
  set (created := createManagedRepository config (URL r) "" st).
  exists (fst created). split; [|by repeat split].
  rewrite bind_run.
  transitivity (managedRepos (snd (open (fst created) (snd created)))).
  - destruct (fst (open (fst created) (snd created))); [done|].
    apply keeps_handleCommands.
  - by rewrite keeps_open.
Qed.

End Endpoint.

(** ** The command dispatcher: ls-refs *)

Section LsRefs.
Context {lib : Library} {World : Type} {sys : System World}.




Lemma hasAnyUpdate_run (r : managedRepository) (refs : gmap string Hash)
    (st : State World) :
  hasAnyUpdate r refs st =
    (match git_PlainOpen (localDiskPath r) (world st) with
     | inl err =>
         (false, Some (errorString
                   ("cannot open the local cached repository: " +:+ Error err)))
     | inr g => hasAnyUpdateLoop g (map_range (world st) refs)
     end, st).
Proof.
  unfold hasAnyUpdate. rewrite bind_run. unfold PlainOpen at 1 2. simpl.
  by destruct (git_PlainOpen _ _).
Qed.


Lemma lsRefsUpstream_run (r : managedRepository)
    (command : list Gitprotocolio.ProtocolV2RequestChunk)
    (authentication : string) (st : State World) :
  let req := lsRefsRequest r command authentication in
  lsRefsUpstream r command authentication st =
    match NewRequest_err "POST" (Http.reqURL req) with
    | Some err =>
        (inl (errorString ("cannot construct a request object: " +:+ Error err)), st)
    | None =>
        (match fst (http_Do req (world st)) with
         | inl err =>
             inl (statusError Internal
                    ("cannot send a request to the upstream: " +:+ Error err))
         | inr resp =>
             if negb (Http.respStatusCode resp =? Http.StatusOK) then
               inl (errorString
                      ("got a non-OK response from the upstream: " +:+
                       Itoa (Http.respStatusCode resp) +:+ " " +:+
                       (if Strings.HasPrefix
                             (Http.Get (Http.respHeader resp) "Content-Type")
                             "text/html"
                        then match Http.ReadAll (Http.respBody resp) with
                             | inr bs => bs
                             | inl _ => ""
                             end
                        else "")))
             else
               match snd (ScanV2Response (Http.respBody resp)) with
               | Some err =>
                   inl (errorString
                          ("cannot parse the upstream response: " +:+ Error err))
               | None => inr (fst (ScanV2Response (Http.respBody resp)))
               end
         end,
         mkState (snd (http_Do req (world st))) (managedRepos st)
                 (trace st ++ [EffHTTP req]))
    end.
Proof.
  cbv zeta. unfold lsRefsUpstream. cbn [lsRefsRequest Http.reqURL].
  destruct (NewRequest_err _ _); [reflexivity|].
  rewrite bind_run. fold (lsRefsRequest r command authentication).
  unfold Do. destruct (http_Do _ _) as [[err|resp] w']; simpl; [reflexivity|].
  destruct (negb _); [reflexivity|].
  by destruct (snd (ScanV2Response _)).
Qed.

End LsRefs.

Section LsRefsCommand.
Context {lib : Library} {World : Type} {sys : System World}.

(** The ls-refs branch of [handleV2Command], step by step. *)
Lemma handleV2Command_lsRefs
    (schedule : Schedule) (repo : managedRepository)
    (command0 : Gitprotocolio.ProtocolV2RequestChunk)
    (rest : list Gitprotocolio.ProtocolV2RequestChunk)
    (w authentication : string) (st : State World) :
  Gitprotocolio.Command command0 = "ls-refs" ->
  handleV2Command schedule repo (command0 :: rest) w authentication st =
    let up := lsRefsUpstream repo (command0 :: rest) authentication st in
    match fst up with
    | inl err => ((w, Returned (Some err)), snd up)
    | inr resp =>
        match parseLsRefsResponse resp with
        | inl err => ((w, Returned (Some err)), snd up)
        | inr refs =>
            let update := fst (hasAnyUpdate repo refs (snd up)) in
            match snd update with
            | Some err => ((w, Returned (Some err)), snd up)
            | None =>
                ((w +:+ writeResp resp, Returned None),
                 if fst update
                 then mkState (world (snd up)) (managedRepos (snd up))
                              (trace (snd up) ++ [EffGo repo authentication])
                 else snd up)
            end
        end
    end.
Proof.
  intros Hcmd. unfold handleV2Command. rewrite Hcmd, String.eqb_refl.
  rewrite bind_run.
  destruct (fst (lsRefsUpstream _ _ _ st)) as [err|resp]; [reflexivity|].
  destruct (parseLsRefsResponse resp) as [err|refs]; [reflexivity|].
  rewrite bind_run, hasAnyUpdate_run. simpl fst. simpl snd.
  destruct (snd _) as [err|]; [reflexivity|].
  rewrite bind_run. destruct (fst _); reflexivity.
Qed.


End LsRefsCommand.

(** ** The command dispatcher: fetch and the want-wait loop *)

Section FetchCommand.
Context {lib : Library} {World : Type} {sys : System World}.

(** [hasAllWants] only reads, and reads only the world. *)
Lemma hasAllWants_run (r : managedRepository) (hashes : list Hash)
    (refs : list string) (st : State World) :
  hasAllWants r hashes refs st =
    (match git_PlainOpen (localDiskPath r) (world st) with
     | inl err =>
         (false, Some (errorString
                   ("cannot open the local cached repository: " +:+ Error err)))
     | inr g =>
         match wantHashesLoop g hashes with
         | Some res => res
         | None =>
             match wantRefsLoop g refs with
             | Some res => res
             | None => (true, None)
             end
         end
     end, st).
Proof.
  unfold hasAllWants. rewrite bind_run. unfold PlainOpen at 1 2. simpl.
  destruct (git_PlainOpen _ _) as [err|g]; [reflexivity|].
  destruct (wantHashesLoop g hashes); [reflexivity|].
  by destruct (wantRefsLoop g refs).
Qed.

Lemma hasAllWants_readsOnly (r : managedRepository) (hashes : list Hash)
    (refs : list string) :
  readsOnly (hasAllWants r hashes refs).
Proof. intros st. by rewrite hasAllWants_run. Qed.

Lemma hasAllWants_world (r : managedRepository) (hashes : list Hash)
    (refs : list string) (st1 st2 : State World) :
  world st1 = world st2 ->
  fst (hasAllWants r hashes refs st1) = fst (hasAllWants r hashes refs st2).
Proof. intros Hw. by rewrite !hasAllWants_run, Hw. Qed.

(** What [fetchUpstream] runs: git commands of [runGit], with an empty
    environment. *)
Lemma fetchUpstream_trace (r : managedRepository) (authentication : string)
    (st : State World) :
  exists cmds,
    trace (snd (fetchUpstream r authentication st)) = trace st ++ map EffExec cmds /\
    forall cmd, cmd ∈ cmds -> Env cmd = [].
Proof.
  unfold fetchUpstream. rewrite bind_run. unfold PlainOpen at 1 2. simpl.
  destruct (git_PlainOpen _ _) as [err|g].
  { exists []. simpl. split; [by rewrite app_nil_r|]. by intros ? ?%elem_of_nil. }
  rewrite bind_run.
  set (first := if match Reference g "HEAD" with NotFound => true | _ => false end
                then _ else _).
  assert (Hfirst : exists cmds1,
             trace (snd (first st)) = trace st ++ map EffExec cmds1 /\
             forall cmd, cmd ∈ cmds1 -> Env cmd = []).
  { subst first. destruct (match Reference g "HEAD" with NotFound => true | _ => false end).
    - eexists [_]. rewrite runGit_trace. split; [done|].
      by intros cmd ->%list_elem_of_singleton.
    - exists []. simpl. split; [by rewrite app_nil_r|]. by intros ? ?%elem_of_nil. }
  destruct Hfirst as (cmds1 & Htrace1 & Henv1).
  destruct (fst (first st)) as [err|].
  - by exists cmds1.
  - eexists (cmds1 ++ [_]). rewrite runGit_trace, Htrace1, map_app, <- app_assoc.
    split; [done|].
    intros cmd [Hin| ->%list_elem_of_singleton]%elem_of_app; [by apply Henv1|done].
Qed.

Lemma serveFetchLocal_run (r : managedRepository)
    (command : list Gitprotocolio.ProtocolV2RequestChunk) (w : string)
    (st : State World) :
  let ran := exec_Run (uploadPackCmd r command) (world st) in
  serveFetchLocal r command w st =
    ((w +:+ fst (fst ran), snd (fst ran)),
     mkState (snd ran) (managedRepos st)
             (trace st ++ [EffExec (uploadPackCmd r command)])).
Proof.
  cbv zeta. unfold serveFetchLocal. rewrite bind_run.
  fold (uploadPackCmd r command). unfold Run.
  by destruct (exec_Run _ _) as [[out err] w'].
Qed.

(** The fetch branch of [handleV2Command], step by step. *)
Lemma handleV2Command_fetch
    (schedule : Schedule) (repo : managedRepository)
    (command0 : Gitprotocolio.ProtocolV2RequestChunk)
    (rest : list Gitprotocolio.ProtocolV2RequestChunk)
    (w authentication : string) (hashes : list Hash) (refs : list string)
    (st : State World) :
  Gitprotocolio.Command command0 = "fetch" ->
  parseFetchWants (command0 :: rest) = inr (hashes, refs) ->
  let serve (st1 : State World) :=
    let served := serveFetchLocal repo (command0 :: rest) w st1 in
    ((fst (fst served), Returned (snd (fst served))), snd served) in
  handleV2Command schedule repo (command0 :: rest) w authentication st =
    let check := fst (hasAllWants repo hashes refs st) in
    match snd check with
    | Some err => ((w, Returned (Some err)), st)
    | None =>
        if fst check then serve st
        else
          let loop :=
            wantWaitLoop schedule repo hashes refs authentication
              (mkState (world st) (managedRepos st)
                       (trace st ++ [EffGo repo authentication])) in
          match fst loop with
          | Return err => ((w, Returned err), snd loop)
          | BreakLoop => serve (snd loop)
          | Waiting => ((w, Blocked), snd loop)
          end
    end.
Proof.
  intros Hcmd Hparse. cbv zeta. unfold handleV2Command.
  rewrite Hcmd, Hparse. change (String.eqb "fetch" "ls-refs") with false.
  rewrite String.eqb_refl. cbv iota.
  rewrite bind_run, (hasAllWants_readsOnly repo hashes refs st).
  destruct (snd (fst (hasAllWants repo hashes refs st))) as [err|]; [reflexivity|].
  rewrite bind_run.
  destruct (fst (fst (hasAllWants repo hashes refs st))); cbn [negb].
  - unfold ret at 1 2. simpl. rewrite bind_run.
    by destruct (snd (fst (serveFetchLocal _ _ _ _))).
  - rewrite bind_run. unfold emit at 1 2. simpl.
    destruct (fst (wantWaitLoop _ _ _ _ _ _)) as [err| |]; try reflexivity.
    rewrite bind_run. by destruct (snd (fst (serveFetchLocal _ _ _ _))).
Qed.

End FetchCommand.

Section WantWait.
Context {lib : Library} {World : Type} {sys : System World}.

Lemma wantWaitLoop_FetchDone
    (env : World -> World) (schedule : Schedule) (repo : managedRepository)
    (hashes : list Hash) (refs : list string) (authentication : string)
    (st : State World) :
  let fetched :=
    fetchUpstream repo authentication
      (mkState (env (world st)) (managedRepos st) (trace st)) in
  let check := fst (hasAllWants repo hashes refs (snd fetched)) in
  wantWaitLoop ((FetchDone, env) :: schedule) repo hashes refs authentication st =
    (match snd check with
     | Some checkErr => Return (Some checkErr)
     | None => if fst check then BreakLoop else Return (fst fetched)
     end, snd fetched).
Proof.
  cbv zeta. simpl wantWaitLoop. rewrite bind_run. unfold meanwhile. simpl.
  rewrite bind_run, bind_run, hasAllWants_readsOnly.
  destruct (snd (fst (hasAllWants _ _ _ _))) as [err|]; [reflexivity|].
  by destruct (fst (fst (hasAllWants _ _ _ _))).
Qed.

Lemma wantWaitLoop_TimerFired
    (env : World -> World) (schedule : Schedule) (repo : managedRepository)
    (hashes : list Hash) (refs : list string) (authentication : string)
    (st : State World) :
  let ticked := mkState (env (world st)) (managedRepos st) (trace st) in
  let check := fst (hasAllWants repo hashes refs ticked) in
  wantWaitLoop ((TimerFired, env) :: schedule) repo hashes refs authentication st =
    match snd check with
    | Some err => (Return (Some err), ticked)
    | None =>
        if fst check then (BreakLoop, ticked)
        else wantWaitLoop schedule repo hashes refs authentication ticked
    end.
Proof.
  cbv zeta. simpl wantWaitLoop. rewrite bind_run. unfold meanwhile. simpl.
  rewrite bind_run, hasAllWants_readsOnly.
  destruct (snd (fst (hasAllWants _ _ _ _))) as [err|]; [reflexivity|].
  by destruct (fst (fst (hasAllWants _ _ _ _))).
Qed.

(** C1, amended. A fetch command whose wants are not all there starts the
    fetch task and waits. A tick of the timer that finds the wants still
    missing changes nothing. When the fetch task completes, the wants are
    looked for again: if they are all there, the loop is left and local
    serve runs (upload-pack is run once, its output goes to the client and
    its error is the result); if they are still missing, the error of the
    fetch, nil or not, is returned at once, nothing is written and
    upload-pack is not run; an error of the check itself is returned. *)
Theorem fetch_completion_settles_the_wait
    (schedule : Schedule) (env : World -> World) (repo : managedRepository)
    (command0 : Gitprotocolio.ProtocolV2RequestChunk)
    (rest : list Gitprotocolio.ProtocolV2RequestChunk)
    (w authentication : string) (hashes : list Hash) (refs : list string)
    (st : State World) :
  Gitprotocolio.Command command0 = "fetch" ->
  let command := command0 :: rest in
  parseFetchWants command = inr (hashes, refs) ->
  fst (hasAllWants repo hashes refs st) = (false, None) ->
  let ticked := mkState (env (world st)) (managedRepos st) (trace st) in
  let launched :=
    mkState (env (world st)) (managedRepos st)
            (trace st ++ [EffGo repo authentication]) in
  let fetched := fetchUpstream repo authentication launched in
  let check := fst (hasAllWants repo hashes refs (snd fetched)) in
  let result :=
    handleV2Command ((FetchDone, env) :: schedule) repo command w authentication st in
  (fst (hasAllWants repo hashes refs ticked) = (false, None) ->
   handleV2Command ((TimerFired, env) :: schedule) repo command w authentication st
     = handleV2Command schedule repo command w authentication ticked) /\
  (check = (true, None) ->
   exists out err,
     exec_Run (uploadPackCmd repo command) (world (snd fetched))
       = ((out, err), world (snd result)) /\
     fst result = (w +:+ out, Returned err) /\
     trace (snd result)
       = trace (snd fetched) ++ [EffExec (uploadPackCmd repo command)]) /\
  (check = (false, None) ->
   fst result = (w, Returned (fst fetched)) /\
   snd result = snd fetched /\
   exists cmds,
     trace (snd result)
       = trace st ++ EffGo repo authentication :: map EffExec cmds /\
     uploadPackCmd repo command ∉ cmds) /\
  (forall checkErr,
      snd check = Some checkErr -> fst result = (w, Returned (Some checkErr))).
Proof.
  intros Hcmd command Hparse Hinit. cbv zeta. subst command.
  rewrite !(handleV2Command_fetch _ _ _ _ _ _ hashes refs) by done. cbv zeta.
  rewrite Hinit. cbn [fst snd].
  rewrite wantWaitLoop_FetchDone, wantWaitLoop_TimerFired. cbv zeta. cbn [fst snd world managedRepos trace].
  set (launched := mkState (env (world st)) (managedRepos st)
                     (trace st ++ [EffGo repo authentication])).
  set (ticked := mkState (env (world st)) (managedRepos st) (trace st)).
  set (fetched := fetchUpstream repo authentication launched).
  split; [|split; [|split]].
  - intros Htick.
    rewrite (hasAllWants_world repo hashes refs launched ticked) by done.
    by rewrite Htick.
  - intros Hcheck. rewrite Hcheck. cbn [fst snd].
    rewrite serveFetchLocal_run. cbv zeta. cbn [fst snd world trace].
    destruct (exec_Run _ _) as [[out err] w']. by exists out, err.
  - intros Hcheck. rewrite Hcheck. cbn [fst snd]. split; [done|]. split; [done|].
    destruct (fetchUpstream_trace repo authentication launched) as (cmds & Htrace & Henv).
    exists cmds. fold fetched in Htrace. rewrite Htrace. subst launched. simpl.
    split; [by rewrite <- app_assoc|].
    intros Hin%Henv. discriminate.
  - intros checkErr Hcheck. by rewrite Hcheck.
Qed.

End WantWait.

(** ** The credential of a request, from the header to the upstream *)

Section Emits.
Context {World : Type} (P : Effect -> Prop).

Lemma emits_same {A} (m : M World A) :
  (forall st, trace (snd (m st)) = trace st) -> emitsOnly P m.
Proof. intros Hm st. exists []. by rewrite Hm, app_nil_r. Qed.

Lemma emits_one {A} (m : M World A) (e : Effect) :
  (forall st, trace (snd (m st)) = trace st ++ [e]) -> P e -> emitsOnly P m.
Proof. intros Hm He st. exists [e]. split; [apply Hm|]. by constructor. Qed.

Lemma emits_ret {A} (a : A) : emitsOnly (World := World) P (ret a).
Proof. by apply emits_same. Qed.

Lemma emits_bind {A B} (m : M World A) (k : A -> M World B) :
  emitsOnly P m -> (forall a, emitsOnly P (k a)) -> emitsOnly P (bind m k).
Proof.
  intros Hm Hk st. rewrite bind_run.
  destruct (Hm st) as (new1 & Hnew1 & HP1).
  destruct (Hk (fst (m st)) (snd (m st))) as (new2 & Hnew2 & HP2).
  exists (new1 ++ new2). rewrite Hnew2, Hnew1, <- app_assoc.
  split; [done|]. by apply Forall_app.
Qed.

End Emits.

Section EmitsOfProgram.
Context {lib : Library} {World : Type} {sys : System World}.
Context (P : Effect -> Prop).

Lemma emits_emit (e : Effect) : P e -> emitsOnly (World := World) P (emit e).
Proof. by apply emits_one. Qed.

Lemma emits_meanwhile (env : World -> World) : emitsOnly P (meanwhile env).
Proof. by apply emits_same. Qed.

Lemma emits_readsOnly {A} (m : M World A) : readsOnly m -> emitsOnly P m.
Proof. intros Hm. apply emits_same. intros st. by rewrite Hm. Qed.

Lemma emits_runGit (gitDir authentication : string) (arg : list string) :
  P (EffExec (runGitCmd gitDir authentication arg)) ->
  emitsOnly P (runGit gitDir authentication arg).
Proof. apply emits_one. apply runGit_trace. Qed.

Lemma emits_open (r : managedRepository) :
  P (EffMkdir (localDiskPath r)) ->
  (forall cmd, cmd ∈ openCommands r -> P (EffExec cmd)) ->
  emitsOnly P (open r).
Proof.
  intros Hmkdir Hcmds. unfold open.
  apply emits_bind; [by apply emits_same|]. intros [| |err]; try apply emits_ret.
  apply emits_bind.
  { apply (emits_one P _ (EffMkdir (localDiskPath r))); [|done].
    intros st. by rewrite MkdirAll_run. }
  intros [err|]; [apply emits_ret|].
  intros st. destruct (open_init_commands r st) as [_ Htrace].
  exists (map EffExec (openCommands r)). split; [exact Htrace|].
  apply Forall_fmap, Forall_forall. intros cmd Hin. by apply Hcmds.
Qed.

Lemma emits_fetchUpstream (r : managedRepository) (authentication : string) :
  P (EffExec (fetchHeadsCmd r authentication)) ->
  P (EffExec (fetchAllCmd r authentication)) ->
  emitsOnly P (fetchUpstream r authentication).
Proof.
  intros Hheads Hall. unfold fetchUpstream.
  apply emits_bind; [by apply emits_same|]. intros [err|g]; [apply emits_ret|].
  cbv zeta. apply emits_bind.
  - destruct (match Reference g "HEAD" with NotFound => true | _ => false end);
      [by apply emits_runGit|apply emits_ret].
  - intros [err|]; [apply emits_ret|by apply emits_runGit].
Qed.

Lemma emits_hasAllWants (r : managedRepository) (hashes : list Hash)
    (refs : list string) :
  emitsOnly P (hasAllWants r hashes refs).
Proof. apply emits_readsOnly, hasAllWants_readsOnly. Qed.

Lemma emits_hasAnyUpdate (r : managedRepository) (refs : gmap string Hash) :
  emitsOnly P (hasAnyUpdate r refs).
Proof. apply emits_same. intros st. by rewrite hasAnyUpdate_run. Qed.

Lemma emits_lsRefsUpstream (r : managedRepository)
    (command : list Gitprotocolio.ProtocolV2RequestChunk) (authentication : string) :
  P (EffHTTP (lsRefsRequest r command authentication)) ->
  emitsOnly P (lsRefsUpstream r command authentication).
Proof.
  intros Hreq st. rewrite lsRefsUpstream_run. cbv zeta.
  destruct (NewRequest_err _ _).
  - exists []. by rewrite app_nil_r.
  - eexists [_]. split; [reflexivity|]. by constructor.
Qed.

Lemma emits_serveFetchLocal (r : managedRepository)
    (command : list Gitprotocolio.ProtocolV2RequestChunk) (w : string) :
  P (EffExec (uploadPackCmd r command)) ->
  emitsOnly P (serveFetchLocal r command w).
Proof.
  apply emits_one. intros st. by rewrite serveFetchLocal_run.
Qed.

End EmitsOfProgram.

Section Credential.
Context {lib : Library} {World : Type} {sys : System World}.

Lemma emits_wantWaitLoop schedule repo (hashes : list Hash) (refs : list string)
    (authentication : string) :
  emitsOnly (usesCredential repo authentication)
    (wantWaitLoop schedule repo hashes refs authentication).
Proof.
  assert (Hfetch : emitsOnly (usesCredential repo authentication)
                     (fetchUpstream repo authentication)).
  { apply emits_fetchUpstream; simpl; auto. }
  induction schedule as [|[event env] schedule IH]; simpl; [apply emits_ret|].
  apply emits_bind; [apply emits_meanwhile|]. intros _.
  destruct event as [ctxErr| |].
  - apply emits_ret.
  - apply emits_bind; [exact Hfetch|]. intros err.
    apply emits_bind; [apply emits_hasAllWants|]. intros [has [checkErr|]];
      [apply emits_ret|]. simpl. destruct has; apply emits_ret.
  - apply emits_bind; [apply emits_hasAllWants|]. intros [has [err|]];
      [apply emits_ret|]. simpl. destruct has; [apply emits_ret|exact IH].
Qed.

(** Whatever a command does to the outside, it does for the mirror and
    with the credential it was given. *)
Lemma emits_handleV2Command schedule repo command (w authentication : string) :
  emitsOnly (usesCredential repo authentication)
    (handleV2Command schedule repo command w authentication).
Proof.
  unfold handleV2Command. destruct command as [|command0 rest]; [apply emits_ret|].
  destruct (String.eqb _ "ls-refs").
  - apply emits_bind; [apply emits_lsRefsUpstream; simpl; by eexists|].
    intros [err|resp]; [apply emits_ret|].
    destruct (parseLsRefsResponse resp) as [err|refs]; [apply emits_ret|].
    apply emits_bind; [apply emits_hasAnyUpdate|]. intros [update [err|]];
      [apply emits_ret|]. simpl.
    apply emits_bind; [|intros _; apply emits_ret].
    destruct update; [by apply emits_emit|apply emits_ret].
  - destruct (String.eqb _ "fetch"); [|apply emits_ret].
    destruct (parseFetchWants _) as [err|[hashes refs]]; [apply emits_ret|].
    apply emits_bind; [apply emits_hasAllWants|]. intros [has [err|]];
      [apply emits_ret|]. simpl.
    apply emits_bind.
    + destruct has; simpl; [apply emits_ret|].
      apply emits_bind; [by apply emits_emit|]. intros _. apply emits_wantWaitLoop.
    + intros [err| |]; try apply emits_ret.
      apply emits_bind; [apply emits_serveFetchLocal; simpl; right; left; by eexists|].
      intros [out [err|]]; apply emits_ret.
Qed.

Lemma emits_handleCommands schedules i repository commands (buff auth : string) :
  emitsOnly (usesCredential repository auth)
    (handleCommands schedules i repository commands buff auth).
Proof.
  revert i buff. induction commands as [|command commands IH]; intros i buff;
    simpl; [apply emits_ret|].
  apply emits_bind; [apply emits_handleV2Command|].
  intros [out [[err|]| |]]; simpl; try apply emits_ret. apply IH.
Qed.

(** Whether a mirror opens depends on the world alone. *)
Lemma open_world (r : managedRepository) (st1 st2 : State World) :
  world st1 = world st2 -> fst (open r st1) = fst (open r st2).
Proof.
  intros Hworld. unfold open. rewrite !bind_run. unfold Stat. cbn [fst snd].
  rewrite Hworld. destruct (os_Stat _ _); try reflexivity.
  rewrite !bind_run, !MkdirAll_run. cbn [fst snd]. rewrite Hworld.
  destruct (fst (os_MkdirAll _ _)); [reflexivity|].
  match goal with
  | |- fst (?init ?s1) = fst (?init' ?s2) =>
      destruct (open_init_commands r s1) as [-> _];
      destruct (open_init_commands r s2) as [-> _]
  end.
  reflexivity.
Qed.

(** An ls-refs command whose request can be built puts it to the
    upstream, before anything else it does. *)
Lemma handleV2Command_lsRefs_sends
    (schedule : Schedule) (repo : managedRepository)
    (command0 : Gitprotocolio.ProtocolV2RequestChunk)
    (rest : list Gitprotocolio.ProtocolV2RequestChunk)
    (w authentication : string) (st : State World) :
  let req := lsRefsRequest repo (command0 :: rest) authentication in
  Gitprotocolio.Command command0 = "ls-refs" ->
  NewRequest_err "POST" (Http.reqURL req) = None ->
  exists after,
    trace (snd (handleV2Command schedule repo (command0 :: rest) w authentication st))
      = trace st ++ EffHTTP req :: after.
Proof.
  cbv zeta. intros Hcmd Hnew.
  rewrite handleV2Command_lsRefs by done. cbv zeta.
  rewrite lsRefsUpstream_run. cbv zeta. rewrite Hnew. cbn [fst snd].
  destruct (fst (http_Do _ _)) as [err|resp]; [by exists []|].
  destruct (negb _); [by exists []|].
  destruct (snd (ScanV2Response _)); [by exists []|].
  destruct (parseLsRefsResponse _); [by exists []|].
  destruct (snd (fst (hasAnyUpdate _ _ _))); [by exists []|].
  destruct (fst (fst (hasAnyUpdate _ _ _))); cbn [trace].
  - eexists [_]. by rewrite <- app_assoc.
  - by exists [].
Qed.

(** The request of [lsRefsUpstream] carries the credential as its
    Authorization header, and none when the credential is empty. *)
Lemma lsRefsRequest_Authorization (r : managedRepository)
    (command : list Gitprotocolio.ProtocolV2RequestChunk) (authentication : string) :
  Http.Get (Http.reqHeader (lsRefsRequest r command authentication)) "Authorization"
    = authentication.
Proof.
  unfold lsRefsRequest. cbn [Http.reqHeader].
  destruct (String.eqb_spec authentication "") as [->|Hne]; reflexivity.
Qed.

(** C4, amended. For a request to /git-upload-pack whose Authorization
    header holds no backslash, the credential is the whole match of the
    pattern of the specification on the header: the header itself when the
    pattern matches it, the empty string when it does not. It is the
    credential of mirror creation: the request leaves the registry as it
    was or registers the mirror created with it, and when the body is
    decoded and parsed and no mirror is registered it does register one,
    public with an empty access list for the empty credential, private with
    the credential as its one entry otherwise. And it is the credential of
    upstream authorization: every request to the upstream, every fetch task
    and every fetch command of the request carries it, and the request of a
    first ls-refs command, which is sent once the mirror opens, has it as
    its Authorization header. *)
Theorem basicAuth_whole_header
    (r : Request) (config : ServerConfig) (schedules : nat -> Schedule)
    (st : State World) :
  let header := Http.Get (Header r) "Authorization" in
  let credential := specWholeMatch header in
  let result := handleGitUploadPack r config schedules st in
  let registered := managedRepos st !! getLocalGitRepositoryPath config (URL r) in
  let mirror :=
    default (fst (createManagedRepository config (URL r) credential st)) registered in
  let registry :=
    <[getLocalGitRepositoryPath config (urlFixer (URL r)) := mirror]> (managedRepos st) in
  hasByte "\" header = false ->
  Regexp.FindString basicAuthRegexp header = credential /\
  (managedRepos (snd result) = managedRepos st \/
   managedRepos (snd result) = registry) /\
  (exists new,
      trace (snd result) = trace st ++ new /\
      Forall (usesCredential mirror credential) new) /\
  (forall body commands,
      (if String.eqb (Http.Get (Header r) "Content-Encoding") "gzip"
       then gzip_NewReader (Body r) else inr (Body r)) = inr body ->
      parseAllCommands body = inr commands ->
      (registered = None ->
       managedRepos (snd result) = registry /\
       upstreamURL mirror = urlFixer (URL r) /\
       isPublic mirror = String.eqb credential "" /\
       accessList mirror = (if String.eqb credential "" then [] else [credential])) /\
      (forall command0 rest commands',
          commands = (command0 :: rest) :: commands' ->
          Gitprotocolio.Command command0 = "ls-refs" ->
          fst (open mirror st) = None ->
          let req := lsRefsRequest mirror (command0 :: rest) credential in
          NewRequest_err "POST" (Http.reqURL req) = None ->
          Http.Get (Http.reqHeader req) "Authorization" = credential /\
          exists before after,
            trace (snd result) = trace st ++ before ++ EffHTTP req :: after)).
Proof.
  cbv zeta. intros Hheader.
  set (credential := specWholeMatch (Http.Get (Header r) "Authorization")).
  set (created := createManagedRepository config (URL r) credential st).
  set (registered := managedRepos st !! getLocalGitRepositoryPath config (URL r)).
  set (mirror := default (fst created) registered).
  set (st0 := match registered with Some _ => st | None => snd created end).
  assert (Hfind : Regexp.FindString basicAuthRegexp (Http.Get (Header r) "Authorization")
                  = credential) by by apply FindString_specWholeMatch.
  assert (Hrun : forall body commands,
             (if String.eqb (Http.Get (Header r) "Content-Encoding") "gzip"
              then gzip_NewReader (Body r) else inr (Body r)) = inr body ->
             parseAllCommands body = inr commands ->
             handleGitUploadPack r config schedules st =
               match fst (open mirror st0) with
               | Some err =>
                   (Respond (Goproxy.NewResponse
                               "application/x-git-upload-pack-result"
                               Http.StatusBadRequest
                               ("error while opening managed repository: "
                                +:+ Error err)),
                    snd (open mirror st0))
               | None =>
                   handleCommands schedules 0 mirror commands "" credential
                     (snd (open mirror st0))
               end).
  { intros body commands Hbody Hparse.
    unfold handleGitUploadPack. cbv zeta. rewrite Hfind, Hbody, Hparse.
    rewrite bind_run. unfold getManagedRepository at 1 2. cbn [fst snd].
    fold registered. subst mirror st0 created.
    destruct registered as [found|]; rewrite bind_run; cbn [default];
      [change (ret found st) with (found, st); cbn [fst snd]|];
      rewrite bind_run; by destruct (fst (open _ _)). }
  assert (Hstate : world st0 = world st /\ trace st0 = trace st /\
                   (managedRepos st0 = managedRepos st \/
                    managedRepos st0
                      = <[getLocalGitRepositoryPath config (urlFixer (URL r)) := mirror]>
                          (managedRepos st)) /\
                   (registered = None ->
                    managedRepos st0
                      = <[getLocalGitRepositoryPath config (urlFixer (URL r)) := mirror]>
                          (managedRepos st))).
  { subst st0 mirror. destruct registered; cbn [default].
    { split; [done|]. split; [done|]. split; [by left|done]. }
    subst created. unfold createManagedRepository. cbn [fst snd world trace managedRepos].
    split; [done|]. split; [done|]. split; [by right|done]. }
  destruct Hstate as (Hworld & Htrace0 & Hregistry & Hcreated).
  assert (Hopen : emitsOnly (usesCredential mirror credential) (open mirror)).
  { apply emits_open; simpl; auto. }
  assert (Hkept : forall body commands,
             (if String.eqb (Http.Get (Header r) "Content-Encoding") "gzip"
              then gzip_NewReader (Body r) else inr (Body r)) = inr body ->
             parseAllCommands body = inr commands ->
             managedRepos (snd (handleGitUploadPack r config schedules st))
               = managedRepos st0).
  { intros body commands Hbody Hparse. rewrite (Hrun body commands Hbody Hparse).
    transitivity (managedRepos (snd (open mirror st0))); [|apply keeps_open].
    destruct (fst (open mirror st0)); [done|]. apply keeps_handleCommands. }
  split; [exact Hfind|]. split; [|split].
  - destruct (if String.eqb _ "gzip" then _ else _) as [err|body] eqn:Hbody.
    { left. unfold handleGitUploadPack. cbv zeta. by rewrite Hbody. }
    destruct (parseAllCommands body) as [err|commands] eqn:Hparse.
    { left. unfold handleGitUploadPack. cbv zeta. by rewrite Hbody, Hparse. }
    rewrite (Hkept body commands) by done. exact Hregistry.
  - destruct (if String.eqb _ "gzip" then _ else _) as [err|body] eqn:Hbody.
    { exists []. unfold handleGitUploadPack. cbv zeta. rewrite Hbody.
      by rewrite app_nil_r. }
    destruct (parseAllCommands body) as [err|commands] eqn:Hparse.
    { exists []. unfold handleGitUploadPack. cbv zeta. rewrite Hbody, Hparse.
      by rewrite app_nil_r. }
    rewrite (Hrun body commands) by done.
    destruct (Hopen st0) as (new1 & Hnew1 & HP1).
    destruct (fst (open mirror st0)) as [err|]; cbn [snd].
    { exists new1. by rewrite Hnew1, Htrace0. }
    destruct (emits_handleCommands schedules 0 mirror commands "" credential
                (snd (open mirror st0))) as (new2 & Hnew2 & HP2).
    exists (new1 ++ new2). rewrite Hnew2, Hnew1, Htrace0, <- app_assoc.
    split; [done|]. by apply Forall_app.
  - intros body commands Hbody Hparse. split.
    + intros Hnone. split.
      { rewrite (Hkept body commands) by done. by apply Hcreated. }
      subst mirror. rewrite Hnone. cbn [default]. subst created.
      unfold createManagedRepository. cbn [fst].
      by destruct (String.eqb credential "").
    + intros command0 rest commands' -> Hcmd Hopens Hnew.
      split; [apply lsRefsRequest_Authorization|].
      rewrite (Hrun body _ Hbody Hparse), (open_world mirror st0 st Hworld), Hopens.
      destruct (Hopen st0) as (before & Hbefore & _).
      cbn [handleCommands]. rewrite bind_run.
      destruct (handleV2Command_lsRefs_sends (schedules 0) mirror command0 rest ""
                  credential (snd (open mirror st0)) Hcmd Hnew) as (after1 & Hsent).
      set (ran := handleV2Command (schedules 0) mirror (command0 :: rest) ""
                    credential (snd (open mirror st0))) in *.
      assert (Hrest : forall reply : M World Reply,
                 emitsOnly (usesCredential mirror credential) reply ->
                 exists after : list Effect,
                   trace (snd (reply (snd ran)))
                     = trace st ++ before ++
                         EffHTTP (lsRefsRequest mirror (command0 :: rest) credential)
                           :: after).
      { intros reply Hreply. destruct (Hreply (snd ran)) as (after2 & Hafter2 & _).
        exists (after1 ++ after2).
        rewrite Hafter2, Hsent, Hbefore, Htrace0. by rewrite <- !app_assoc. }
      exists before.
      destruct (snd (fst ran)) as [[err|]| |]; apply Hrest;
        first [apply emits_ret | apply emits_handleCommands].
Qed.

End Credential.

(* ===================================================================== *)
(** * Part IV. The properties at concrete inputs                          *)
(* ===================================================================== *)

(** C1 as stated fails. On a cold cache the fetch task completes with a
    nil error and the wanted object is still missing; the command returns
    nil, nothing is written, and upload-pack has not been run. *)
Lemma fetch_done_nil_unsatisfied_no_serve :
  let result :=
    handleV2Command (lib := Demo.library) (sys := Demo.system)
      [(FetchDone, fun w => w)] Demo.mirror Demo.fetchCommand "" ""
      (Demo.start Demo.cold) in
  let fetched :=
    fetchUpstream (lib := Demo.library) (sys := Demo.system) Demo.mirror ""
      (mkState Demo.cold ∅ [EffGo Demo.mirror ""]) in
  fst fetched = None /\
  fst (hasAllWants (lib := Demo.library) (sys := Demo.system) Demo.mirror
         ["aaaaaaaaaaaaaaaaaaaaaaaaaaaaaaaaaaaaaaaa"] [] (snd fetched)) = (false, None) /\
  fst result = ("", Returned None) /\
  EffExec (uploadPackCmd (lib := Demo.library) (sys := Demo.system)
             Demo.mirror Demo.fetchCommand) ∉ trace (snd result).
Proof.
  cbv zeta. split; [reflexivity|]. split; [reflexivity|]. split; [reflexivity|].
  intros Hin.
  repeat (apply elem_of_cons in Hin as [Heq|Hin]; [discriminate Heq|]).
  by apply elem_of_nil in Hin.
Qed.

(** C1, amended, at an input: the fetch task completes after the wanted
    object has arrived; the loop is left and upload-pack serves the client. *)
Lemma fetch_completion_settles_the_wait_witness :
  Gitprotocolio.Command (Demo.requestChunk "command=fetch") = "fetch" /\
  fst (handleV2Command (lib := Demo.library) (sys := Demo.system)
         [(FetchDone, Demo.arrived)] Demo.mirror Demo.fetchCommand "" ""
         (Demo.start Demo.cold))
    = ("PACK", Returned None).
Proof.
  split; [reflexivity|].
  destruct (fetch_completion_settles_the_wait
              (lib := Demo.library) (sys := Demo.system)
              [] Demo.arrived Demo.mirror
              (Demo.requestChunk "command=fetch")
              [Demo.requestChunk "want aaaaaaaaaaaaaaaaaaaaaaaaaaaaaaaaaaaaaaaa"]
              "" "" ["aaaaaaaaaaaaaaaaaaaaaaaaaaaaaaaaaaaaaaaa"] []
              (Demo.start Demo.cold)
              eq_refl eq_refl eq_refl)
    as (_ & Hserved & _).
  destruct (Hserved eq_refl) as (out & err & Hrun & Hresult & _).
  vm_compute in Hrun. injection Hrun as <- <-. exact Hresult.
Defined.

(** C4, amended, at an input: a request with an ls-refs command and the
    header [Basic YWJj]. The credential is the whole header, the mirror the
    request creates is private and lists it, and the request to the
    upstream has it as its Authorization header. *)
Lemma basicAuth_whole_header_witness :
  let mirror :=
    fst (createManagedRepository Demo.config (URL Inputs.lsRefsWithCredential)
           "Basic YWJj" (Demo.start Demo.cold)) in
  let req := lsRefsRequest (lib := Demo.library) mirror Demo.lsRefsCommand "Basic YWJj" in
  let result :=
    handleGitUploadPack (lib := Demo.library) (sys := Demo.system)
      Inputs.lsRefsWithCredential Demo.config (fun _ => []) (Demo.start Demo.cold) in
  hasByte "\" (Http.Get (Header Inputs.lsRefsWithCredential) "Authorization") = false /\
  Regexp.FindString basicAuthRegexp "Basic YWJj" = "Basic YWJj" /\
  isPublic mirror = false /\
  accessList mirror = ["Basic YWJj"] /\
  Http.Get (Http.reqHeader req) "Authorization" = "Basic YWJj" /\
  exists before after, trace (snd result) = before ++ EffHTTP req :: after.
Proof.
  cbv zeta. split; [reflexivity|].
  destruct (basicAuth_whole_header
              (lib := Demo.library) (sys := Demo.system)
              Inputs.lsRefsWithCredential Demo.config (fun _ => [])
              (Demo.start Demo.cold) eq_refl)
    as (Hfind & _ & _ & Hparsed).
  split; [exact Hfind|].
  destruct (Hparsed (Body Inputs.lsRefsWithCredential) [Demo.lsRefsCommand]
              eq_refl eq_refl) as (Hcreate & Hsend).
  destruct (Hcreate eq_refl) as (_ & _ & Hprivate & Hlist).
  split; [exact Hprivate|]. split; [exact Hlist|].
  destruct (Hsend (Demo.requestChunk "command=ls-refs") [] []
              eq_refl eq_refl eq_refl eq_refl)
    as (Hauth & before & after & Htrace).
  split; [exact Hauth|]. exists before, after. exact Htrace.
Defined.



(** C7 as stated fails. The mirror of
    [https://example.invalid/private/r.git] is registered private and the
    advertisement is asked for without an Authorization header: the reply is
    401 and its body holds the word, but its content type is text/plain and
    it carries no WWW-Authenticate header. *)
Lemma handleInfoRefs_unauthorized_not_as_claimed :
  let reply :=
    fst (handleInfoRefs (lib := Demo.library) (World := Demo.World)
           Demo.infoRefsRequest Demo.config Demo.withPrivateMirror) in
  reply =
    Respond {| Goproxy.StatusCode := 401;
               Goproxy.Header := [("Content-Type", "text/plain")];
               Goproxy.Body := "unauthorized - please send basic auth credentials" |} /\
  ~ claimedUnauthorized reply.
Proof.
  cbv zeta.
  assert (Hreply :
    fst (handleInfoRefs (lib := Demo.library) (World := Demo.World)
           Demo.infoRefsRequest Demo.config Demo.withPrivateMirror)
    = Respond {| Goproxy.StatusCode := 401;
                 Goproxy.Header := [("Content-Type", "text/plain")];
                 Goproxy.Body := "unauthorized - please send basic auth credentials" |})
    by (vm_compute; reflexivity).
  split; [exact Hreply|].
  rewrite Hreply. intros (resp & [= <-] & _ & Hhint & _). by apply Hhint.
Qed.

(** C7, amended, at that input. *)
Lemma handleInfoRefs_private_unauthenticated_witness :
  Query_Get (Library := Demo.library) (URL Demo.infoRefsRequest) "service"
    = "git-upload-pack" /\
  Http.Get (Header Demo.infoRefsRequest) "Authorization" = "" /\
  exists resp,
    handleInfoRefs (lib := Demo.library) (World := Demo.World)
      Demo.infoRefsRequest Demo.config Demo.withPrivateMirror
      = (Respond resp, Demo.withPrivateMirror) /\
    Goproxy.StatusCode resp = 401.
Proof.
  split; [reflexivity|]. split; [reflexivity|].
  destruct (handleInfoRefs_private_unauthenticated
              (lib := Demo.library) (World := Demo.World)
              Demo.infoRefsRequest Demo.config Demo.withPrivateMirror
              (fst (createManagedRepository Demo.config
                      (Demo.url "/private/r.git/git-upload-pack" "")
                      "Basic YWJj" (Demo.start Demo.cold))))
    as (resp & Hrun & Hstatus & _).
  - reflexivity.
  - unfold Demo.withPrivateMirror, createManagedRepository. simpl.
    apply lookup_insert_eq.
  - reflexivity.
  - reflexivity.
  - by exists resp.
Defined.

(** C9 at an input: a Basic credential whose token holds a slash is not
    matched, and the request that carries it registers its mirror public. *)
Lemma unmatched_credential_registers_public_witness :
  ~ basicAuthHeader (Http.Get (Header Demo.uploadPackRequest) "Authorization") /\
  Regexp.FindString basicAuthRegexp
    (Http.Get (Header Demo.uploadPackRequest) "Authorization") = "" /\
  exists repository,
    managedRepos
      (snd (handleGitUploadPack (lib := Demo.library) (sys := Demo.system)
              Demo.uploadPackRequest Demo.config (fun _ => [])
              (Demo.start Demo.cold)))
      = <[getLocalGitRepositoryPath Demo.config (urlFixer (URL Demo.uploadPackRequest))
            := repository]> ∅ /\
    isPublic repository = true /\
    accessList repository = [].
Proof.
  assert (Hno : ~ basicAuthHeader
                    (Http.Get (Header Demo.uploadPackRequest) "Authorization")).
  { intros Hm. apply (basicAuthHeader_token "dXNlcjpwYXNz/w==") in Hm.
    vm_compute in Hm. discriminate. }
  split; [exact Hno|].
  destruct (unmatched_credential_registers_public
              (lib := Demo.library) (sys := Demo.system)
              Demo.uploadPackRequest Demo.config (fun _ => [])
              (Demo.start Demo.cold)
              (Body Demo.uploadPackRequest)
              [Demo.fetchCommand]
              Hno eq_refl eq_refl (lookup_empty _))
    as (Hauth & repository & Hreg & _ & Hpublic & Hlist).
  split; [exact Hauth|]. by exists repository.
Defined.

(** The other bytes of the URL-safe alphabet fare the same. *)
Example basicAuth_urlsafe_tokens_unmatched :
  Regexp.FindString basicAuthRegexp "Basic dXNlcjpwYXNz_w==" = "" /\
  Regexp.FindString basicAuthRegexp "Basic dXNlcjpwYXNz-w==" = "" /\
  Regexp.FindString basicAuthRegexp "Bearer dXNlcjpwYXNz" = "".
Proof. repeat split; reflexivity. Qed.

(** C10 at an input: with a git binary that fails every time, a fresh
    mirror is opened without error, after all seven commands were run. *)
Example open_ignores_git_failures :
  let opened :=
    open (lib := Demo.library) (sys := Demo.system) Demo.mirror
      (Demo.start Demo.broken) in
  fst opened = None /\
  length (trace (snd opened)) = 8 /\
  fst (runGit (lib := Demo.library) (sys := Demo.system)
         (localDiskPath Demo.mirror) "" ["init"; "--bare"] (Demo.start Demo.broken))
    = Some (errorString "failed to run a git command: exit status 128").
Proof. repeat split; reflexivity. Qed.

(* ===================================================================== *)
(** * Part V. Further properties of the code                              *)
(* ===================================================================== *)

(** ** The replacer and the local path *)

(** Two ways to cut the same string, seen from the front: the first piece
    of one is a prefix of the first piece of the other. *)
Lemma app_eq_app_heads (x y u v : string) :
  x +:+ y = u +:+ v ->
  (exists t, x = u +:+ t) \/
  (exists b, b <> "" /\ u = x +:+ b /\ y = b +:+ v).
Proof.
  revert u. induction x as [|c x IH]; intros u Heq.
  - rewrite string_app_nil_l in Heq. destruct u as [|d u].
    + left. by exists "".
    + right. exists (String d u). by rewrite string_app_nil_l.
  - destruct u as [|d u].
    + left. exists (String c x). by rewrite string_app_nil_l.
    + rewrite !string_app_cons in Heq. injection Heq as -> Heq.
      destruct (IH _ Heq) as [[t ->]|(b & Hb & -> & ->)].
      * left. by exists t.
      * right. exists b. by rewrite string_app_cons.
Qed.

Lemma properTails_elem (a b : string) :
  a <> "" -> b <> "" -> b ∈ properTails (a +:+ b).
Proof.
  induction a as [|c a IH]; intros Ha Hb; [done|].
  rewrite string_app_cons. simpl.
  destruct a as [|c' a].
  - rewrite string_app_nil_l. destruct b; [done|]. by left.
  - rewrite string_app_cons. right. rewrite <- string_app_cons. by apply IH.
Qed.

(** Where no key straddles into [s], a lookup in front of [s] sees what it
    sees without [s]. *)
Lemma lookup_app_no_straddle (r : Strings.Replacer) (q s : string) :
  q <> "" ->
  forallb (fun oldnew => negb (straddles (fst oldnew) s)) r = true ->
  Strings.lookup r (q +:+ s) = Strings.lookup r q.
Proof.
  intros Hq. induction r as [|[old new] r IH]; intros Hr; [reflexivity|].
  simpl in Hr. apply andb_true_iff in Hr as [Hold Hr]. simpl.
  rewrite IH by done.
  destruct (Strings.HasPrefix q old) eqn:Hpre.
  - apply HasPrefix_spec in Hpre as [t ->].
    by rewrite string_app_assoc, HasPrefix_app.
  - destruct (Strings.HasPrefix (q +:+ s) old) eqn:Hpre'; [|done].
    exfalso. apply HasPrefix_spec in Hpre' as [t Heq].
    apply app_eq_app_heads in Heq as [[t' ->]|(b & Hb & -> & ->)].
    + by rewrite HasPrefix_app in Hpre.
    + apply negb_true_iff in Hold. unfold straddles in Hold.
      assert (Hex : existsb (Strings.HasPrefix (b +:+ t)) (properTails (q +:+ b)) = true).
      { apply existsb_exists. exists b. split.
        - apply list_elem_of_In. by apply properTails_elem.
        - apply HasPrefix_app. }
      congruence.
Qed.

Lemma lookup_keylen (r : Strings.Replacer) (s new : string) (keylen : nat) :
  Strings.lookup r s = Some (new, keylen) -> keylen <= String.length s.
Proof.
  induction r as [|[old new'] r IH]; simpl; [done|].
  destruct (Strings.HasPrefix s old) eqn:Hpre; [|done].
  intros [= _ <-]. apply HasPrefix_spec in Hpre as [t ->].
  rewrite string_length_app. lia.
Qed.

(** The scan of a text followed by [s] is the scan of the text followed by
    the scan of [s], when no key straddles into [s]. *)
Lemma ReplaceFrom_app (r : Strings.Replacer) (s : string) :
  forallb (fun oldnew => negb (straddles (fst oldnew) s)) r = true ->
  forall q skip,
    skip <= String.length q ->
    Strings.ReplaceFrom r skip (q +:+ s) =
      Strings.ReplaceFrom r skip q +:+ Strings.ReplaceFrom r 0 s.
Proof.
  intros Hr. induction q as [|c q IH]; intros skip Hskip.
  - simpl in Hskip. replace skip with 0 by lia. by rewrite string_app_nil_l.
  - rewrite string_app_cons. simpl Strings.ReplaceFrom.
    destruct skip as [|k].
    + rewrite <- string_app_cons, lookup_app_no_straddle by done.
      destruct (Strings.lookup r (String c q)) as [[new keylen]|] eqn:Hlook.
      * apply lookup_keylen in Hlook. simpl in Hlook.
        rewrite IH by lia. by rewrite string_app_assoc.
      * rewrite IH by lia. by rewrite string_app_cons.
    + simpl in Hskip. apply IH. lia.
Qed.

Lemma stripGitSuffixes_app_service (q suffix : string) :
  suffix ∈ serviceSuffixes ->
  stripGitSuffixes (q +:+ suffix) = stripGitSuffixes q.
Proof.
  intros Hin. unfold stripGitSuffixes, Strings.Replace, Strings.NewReplacer.
  unfold serviceSuffixes in Hin.
  repeat (apply elem_of_cons in Hin as [->|Hin];
          [rewrite ReplaceFrom_app by (reflexivity || lia);
           change (Strings.ReplaceFrom _ 0 _) with "" at 2;
           by rewrite string_app_nil_r|]).
  by apply elem_of_nil in Hin.
Qed.

Lemma localPath_urlFixer (config : ServerConfig) (u : Url.URL) :
  getLocalGitRepositoryPath config (urlFixer u) = getLocalGitRepositoryPath config u.
Proof.
  unfold getLocalGitRepositoryPath. rewrite urlFixer_Path.
  rewrite (urlFixer_rest u) at 1. cbn [Url.Host].
  repeat match goal with
  | |- context [if Strings.HasSuffix ?p ?suffix then _ else _] =>
      destruct (Strings.HasSuffix p suffix) eqn:?Hs
  end; try reflexivity;
  match goal with
  | H : Strings.HasSuffix _ ?suffix = true |- _ =>
      apply HasSuffix_spec in H as [q Hq]; rewrite Hq, TrimSuffix_app;
      rewrite (stripGitSuffixes_app_service q suffix); [reflexivity|]
  end; unfold serviceSuffixes; set_solver.
Qed.

(** X1. The strip does not see a trailing service suffix: a path followed
    by /info/refs, /git-receive-pack or /git-upload-pack strips to what the
    path alone strips to. So the local path of a URL and of its canonical
    form are the same: a request finds under its own URL the mirror that was
    stored under the canonical one. *)
Theorem service_suffix_does_not_change_local_path :
  (forall q suffix,
      suffix ∈ serviceSuffixes ->
      stripGitSuffixes (q +:+ suffix) = stripGitSuffixes q) /\
  (forall config u,
      getLocalGitRepositoryPath config (urlFixer u) =
        getLocalGitRepositoryPath config u) /\
  (forall config u q suffix,
      suffix ∈ serviceSuffixes ->
      getLocalGitRepositoryPath config (withPath u (q +:+ suffix)) =
        getLocalGitRepositoryPath config (withPath u q)).
Proof.
  split; [exact stripGitSuffixes_app_service|]. split; [exact localPath_urlFixer|].
  intros config u q suffix Hin. unfold getLocalGitRepositoryPath. simpl.
  by rewrite stripGitSuffixes_app_service.
Qed.

(** X2. A mirror that was created for a URL is found again under that URL,
    and under every service URL of the same repository, by both lookups of
    the registry; lookups under other local paths see what they saw
    before. *)
Theorem created_mirror_is_found_again
    {World : Type} (config : ServerConfig) (u : Url.URL) (auth : string)
    (st : State World) :
  let created := createManagedRepository config u auth st in
  (forall u',
      getLocalGitRepositoryPath config u' = getLocalGitRepositoryPath config u ->
      fst (getManagedRepository config u' (snd created)) = Some (fst created) /\
      fst (managedRepositoryExists config u' (snd created)) = true) /\
  (forall q suffix suffix',
      Url.Path u = q +:+ suffix ->
      suffix ∈ serviceSuffixes -> suffix' ∈ serviceSuffixes ->
      fst (getManagedRepository config (withPath u (q +:+ suffix')) (snd created))
        = Some (fst created)) /\
  (forall u',
      getLocalGitRepositoryPath config u' <> getLocalGitRepositoryPath config u ->
      fst (getManagedRepository config u' (snd created))
        = fst (getManagedRepository config u' st)).
Proof.
  cbv zeta.
  assert (Hfound : forall u',
             getLocalGitRepositoryPath config u' = getLocalGitRepositoryPath config u ->
             managedRepos (snd (createManagedRepository config u auth st))
               !! getLocalGitRepositoryPath config u'
             = Some (fst (createManagedRepository config u auth st))).
  { intros u' Hpath. unfold createManagedRepository. cbn [fst snd managedRepos].
    rewrite Hpath, localPath_urlFixer. apply lookup_insert_eq. }
  split; [|split].
  - intros u' Hpath. unfold getManagedRepository, managedRepositoryExists.
    cbn [fst]. rewrite (Hfound u' Hpath). split; [done|].
    by rewrite bool_decide_true by by eexists.
  - intros q suffix suffix' Hpath Hin Hin'. unfold getManagedRepository. cbn [fst].
    apply Hfound. unfold getLocalGitRepositoryPath. rewrite Hpath. cbn.
    by rewrite !stripGitSuffixes_app_service.
  - intros u' Hpath. unfold getManagedRepository, createManagedRepository.
    cbn [fst snd managedRepos]. rewrite localPath_urlFixer.
    by rewrite lookup_insert_ne.
Qed.

(** X3. The access list is a list of what was added: after [Add], a
    credential has access exactly when it is the one added or had access
    before, and nothing else of the mirror is changed. A mirror as the
    registry creates it gives access to the creating credential alone, and
    to none when there was no credential. *)
Theorem access_list_round_trip
    {World : Type} (r : managedRepository) (auth other : string)
    (config : ServerConfig) (u : Url.URL) (st : State World) :
  (HasAccess (Add r auth) other = true <->
     other = auth \/ HasAccess r other = true) /\
  (localDiskPath (Add r auth) = localDiskPath r /\
   upstreamURL (Add r auth) = upstreamURL r /\
   isPublic (Add r auth) = isPublic r /\
   lastUpdate (Add r auth) = lastUpdate r) /\
  (HasAccess (fst (createManagedRepository config u auth st)) other = true <->
     auth <> "" /\ other = auth).
Proof.
  unfold HasAccess, Add. cbn [accessList]. split; [|split].
  - rewrite !bool_decide_eq_true, elem_of_app, list_elem_of_singleton. tauto.
  - done.
  - unfold createManagedRepository. cbn [fst].
    destruct (String.eqb_spec auth "") as [->|Hne]; cbn [negb accessList app].
    + rewrite bool_decide_eq_true. split; [by intros ?%elem_of_nil|by intros [? _]].
    + rewrite bool_decide_eq_true, list_elem_of_singleton. tauto.
Qed.

(** ** The HTTP endpoint, further *)

Section EndpointFurther.
Context {lib : Library} {World : Type} {sys : System World}.

(** X4. A request to /git-upload-pack for a mirror that is registered
    leaves the registry as it is, whatever credential it carries and however
    it ends: the mirror keeps the privacy and the access list its first
    request gave it. *)
Theorem registered_mirror_is_left_alone
    (r : Request) (config : ServerConfig) (schedules : nat -> Schedule)
    (st : State World) (repository : managedRepository) :
  managedRepos st !! getLocalGitRepositoryPath config (URL r) = Some repository ->
  managedRepos (snd (handleGitUploadPack r config schedules st)) = managedRepos st.
Proof.
  intros Hreg. unfold handleGitUploadPack. cbv zeta.
  destruct (if String.eqb _ "gzip" then _ else _) as [err|body]; [done|].
  destruct (parseAllCommands body) as [err|commands]; [done|].
  rewrite bind_run. unfold getManagedRepository at 1 2. cbn [fst snd].
  rewrite Hreg. rewrite bind_run.
  change (ret repository st) with (repository, st). cbn [fst snd].
  rewrite bind_run.
  transitivity (managedRepos (snd (open repository st))).
  - destruct (fst (open repository st)); [done|]. apply keeps_handleCommands.
  - apply keeps_open.
Qed.

(** X5. A request whose body cannot be decompressed or parsed is answered
    400 with the content type of a result, and nothing has happened: no
    mirror is created, no directory made, no command run. *)
Theorem undecodable_request_touches_nothing
    (r : Request) (config : ServerConfig) (schedules : nat -> Schedule)
    (st : State World) :
  let decoded :=
    if String.eqb (Http.Get (Header r) "Content-Encoding") "gzip"
    then gzip_NewReader (Body r) else inr (Body r) in
  (exists err, decoded = inl err) \/
  (exists body err, decoded = inr body /\ parseAllCommands body = inl err) ->
  exists resp,
    handleGitUploadPack r config schedules st = (Respond resp, st) /\
    Goproxy.StatusCode resp = 400 /\
    Http.Get (Goproxy.Header resp) "Content-Type"
      = "application/x-git-upload-pack-result".
Proof.
  cbv zeta. intros [[err Hdec]|(body & err & Hdec & Hparse)];
    unfold handleGitUploadPack; cbv zeta; rewrite Hdec; [|rewrite Hparse];
    eexists; (split; [reflexivity|done]).
Qed.

(** X6. The mirror is registered before it is opened: when a request
    creates a mirror and opening it fails, the reply is 400 and the mirror
    stays in the registry, where later requests find it. *)
Theorem failed_open_leaves_mirror_registered
    (r : Request) (config : ServerConfig) (schedules : nat -> Schedule)
    (st : State World) (body : Http.Reader)
    (commands : list (list Gitprotocolio.ProtocolV2RequestChunk)) (err : error) :
  let auth := Regexp.FindString basicAuthRegexp (Http.Get (Header r) "Authorization") in
  let created := createManagedRepository config (URL r) auth st in
  (if String.eqb (Http.Get (Header r) "Content-Encoding") "gzip"
   then gzip_NewReader (Body r) else inr (Body r)) = inr body ->
  parseAllCommands body = inr commands ->
  managedRepos st !! getLocalGitRepositoryPath config (URL r) = None ->
  fst (open (fst created) (snd created)) = Some err ->
  let result := handleGitUploadPack r config schedules st in
  (exists resp,
      fst result = Respond resp /\ Goproxy.StatusCode resp = 400 /\
      Goproxy.Body resp = "error while opening managed repository: " +:+ Error err) /\
  managedRepos (snd result)
    = <[getLocalGitRepositoryPath config (URL r) := fst created]> (managedRepos st) /\
  fst (managedRepositoryExists config (URL r) (snd result)) = true.
Proof.
  cbv zeta. intros Hdec Hparse Hnew Hopen.
  set (auth := Regexp.FindString basicAuthRegexp (Http.Get (Header r) "Authorization")) in *.
  set (created := createManagedRepository config (URL r) auth st) in *.
  assert (Hrun : handleGitUploadPack r config schedules st =
                   (Respond (Goproxy.NewResponse "application/x-git-upload-pack-result"
                               Http.StatusBadRequest
                               ("error while opening managed repository: " +:+ Error err)),
                    snd (open (fst created) (snd created)))).
  { subst created. unfold handleGitUploadPack. cbv zeta. fold auth.
    rewrite Hdec, Hparse.
    rewrite bind_run. unfold getManagedRepository. cbn [fst snd].
    rewrite Hnew. rewrite bind_run, bind_run, Hopen. reflexivity. }
  rewrite Hrun. cbn [fst snd].
  assert (Hreg : managedRepos (snd (open (fst created) (snd created)))
                 = <[getLocalGitRepositoryPath config (URL r) := fst created]>
                     (managedRepos st)).
  { rewrite keeps_open. subst created. unfold createManagedRepository.
    cbn [fst snd managedRepos]. by rewrite localPath_urlFixer. }
  split; [by eexists|]. split; [exact Hreg|].
  unfold managedRepositoryExists. cbn [fst]. rewrite Hreg, lookup_insert_eq.
  by rewrite bool_decide_true by by eexists.
Qed.

(** X7. Asking for the advertisement changes nothing and does nothing: for
    every request the state after [handleInfoRefs] is the state before (no
    request to the upstream, no command, no change of the registry), and the
    handler always returns. *)
Theorem handleInfoRefs_only_reads (r : Request) (config : ServerConfig)
    (st : State World) :
  snd (handleInfoRefs r config st) = st /\
  fst (handleInfoRefs r config st) <> Stuck.
Proof.
  assert (Hrun : exists reply,
             handleInfoRefs r config st = (reply, st) /\ reply <> Stuck).
  { unfold handleInfoRefs.
    destruct (negb _); [by eexists|].
    rewrite bind_run. unfold managedRepositoryExists. cbn [fst snd].
    destruct (negb _); [by eexists|].
    rewrite bind_run. unfold getManagedRepository. cbn [fst snd].
    destruct (managedRepos st !! _) as [repository|]; [|by eexists].
    destruct (_ && _); [by eexists|].
    destruct (writePackets _); by eexists. }
  destruct Hrun as (reply & -> & Hreply). done.
Qed.

(** X8. The gate of a private mirror looks at the presence of an
    Authorization header only: a registered mirror that is public, or a
    request that carries any non-empty Authorization header, gets the
    advertisement with status 200; neither the value of the header nor the
    access list of the mirror is looked at. *)
Theorem advertisement_needs_only_a_header
    (r : Request) (config : ServerConfig) (st : State World)
    (repository : managedRepository) (advertisement : string) :
  Query_Get (URL r) "service" = "git-upload-pack" ->
  managedRepos st !! getLocalGitRepositoryPath config (URL r) = Some repository ->
  isPublic repository = true \/ Http.Get (Header r) "Authorization" <> "" ->
  writePackets infoRefsResponseChunks = inr advertisement ->
  handleInfoRefs r config st =
    (Respond (Goproxy.NewResponse "application/x-git-upload-pack-advertisement"
                Http.StatusOK advertisement), st).
Proof.
  intros Hservice Hreg Hgate Hwrite. unfold handleInfoRefs.
  rewrite Hservice, String.eqb_refl. cbn [negb].
  rewrite bind_run. unfold managedRepositoryExists at 1 2. cbn [fst snd].
  rewrite Hreg, bool_decide_true by by eexists. cbn [negb].
  rewrite bind_run. unfold getManagedRepository at 1 2. cbn [fst snd].
  rewrite Hreg, Hwrite.
  destruct Hgate as [-> | Hheader]; [reflexivity|].
  destruct (String.eqb_spec (Http.Get (Header r) "Authorization") ""); [done|].
  by rewrite andb_false_r.
Qed.

End EndpointFurther.

(** ** The parsers *)

Lemma Split_nonempty (s : string) (sep : ascii) : Strings.Split s sep <> [].
Proof.
  destruct s as [|c s]; simpl; [done|].
  destruct (Ascii.eqb c sep); [done|]. by destruct (Strings.Split s sep).
Qed.

Lemma Split_without_sep (s : string) (sep : ascii) :
  hasByte sep s = false -> Strings.Split s sep = [s].
Proof.
  induction s as [|c s IH]; simpl; [done|].
  intros [Hc Hs]%orb_false_iff. by rewrite Hc, IH.
Qed.

Lemma Split_with_sep (s : string) (sep : ascii) :
  hasByte sep s = true -> exists x y l, Strings.Split s sep = x :: y :: l.
Proof.
  induction s as [|c s IH]; simpl; [done|].
  destruct (Ascii.eqb c sep) eqn:Hc; simpl.
  - intros _. destruct (Strings.Split s sep) as [|y l] eqn:Hs.
    + by apply Split_nonempty in Hs.
    + by exists "", y, l.
  - intros (x & y & l & ->)%IH. by exists (String c x), y, l.
Qed.

Lemma HasPrefix_hasByte (s prefix : string) (c : ascii) :
  Strings.HasPrefix s prefix = true -> hasByte c prefix = true -> hasByte c s = true.
Proof.
  intros [t ->]%HasPrefix_spec Hc. by rewrite hasByte_app, Hc.
Qed.

Section Parsers.
Context {lib : Library}.

Lemma parseFetchWantsLoop_total
    (chunks : list Gitprotocolio.ProtocolV2RequestChunk)
    (hashes : list Hash) (refs : list string) :
  exists hashes' refs',
    parseFetchWantsLoop chunks hashes refs = inr (hashes', refs') /\
    length hashes' + length refs' <= length hashes + length refs + length chunks.
Proof.
  revert hashes refs. induction chunks as [|ch chunks IH]; intros hashes refs.
  - exists hashes, refs. split; [reflexivity|simpl; lia].
  - cbn [parseFetchWantsLoop length]. destruct (Gitprotocolio.Argument ch) as [s|].
    + destruct (Strings.HasPrefix s "want ") eqn:Hwant.
      * destruct (Split_with_sep s " ") as (x & y & l & ->).
        { by apply (HasPrefix_hasByte s "want "). }
        cbv iota beta.
        destruct (IH (hashes ++ [NewHash (TrimSpace y)]) refs) as (hs & rs & -> & Hlen).
        exists hs, rs. split; [done|]. rewrite length_app in Hlen. simpl in Hlen. lia.
      * destruct (Strings.HasPrefix s "want-ref ") eqn:Hwantref.
        -- destruct (Split_with_sep s " ") as (x & y & l & ->).
           { by apply (HasPrefix_hasByte s "want-ref "). }
           cbv iota beta.
           destruct (IH hashes (refs ++ [TrimSpace y])) as (hs & rs & -> & Hlen).
           exists hs, rs. split; [done|]. rewrite length_app in Hlen. simpl in Hlen. lia.
        -- destruct (IH hashes refs) as (hs & rs & -> & Hlen).
           exists hs, rs. split; [done|]. lia.
    + destruct (IH hashes refs) as (hs & rs & -> & Hlen).
      exists hs, rs. split; [done|]. lia.
Qed.

(** X9. The wants of a fetch command are always parsed: the error of
    [parseFetchWants] cannot occur, since an argument that starts with the
    word want and a space has two fields; and there are no more wants than
    chunks. A command with no argument has no wants. *)
Theorem parseFetchWants_never_fails
    (chunks : list Gitprotocolio.ProtocolV2RequestChunk) :
  (exists hashes refs,
      parseFetchWants chunks = inr (hashes, refs) /\
      length hashes + length refs <= length chunks) /\
  (Forall (fun ch => Gitprotocolio.Argument ch = None) chunks ->
   parseFetchWants chunks = inr ([], [])).
Proof.
  split.
  - destruct (parseFetchWantsLoop_total chunks [] []) as (hs & rs & Heq & Hlen).
    exists hs, rs. split; [exact Heq|]. simpl in Hlen. lia.
  - unfold parseFetchWants. induction 1 as [|ch chunks Hch _ IH]; [reflexivity|].
    cbn [parseFetchWantsLoop]. by rewrite Hch.
Qed.

Lemma parseLsRefsLoop_fails
    (chunks : list Gitprotocolio.ProtocolV2ResponseChunk) (m : gmap string Hash) :
  (exists err, parseLsRefsLoop chunks m = inl err) <->
  exists ch response,
    ch ∈ chunks /\ Gitprotocolio.Response ch = Some response /\
    hasByte " " response = false.
Proof.
  revert m. induction chunks as [|ch chunks IH]; intros m.
  - simpl. split; [by intros [? ?]|]. by intros (? & ? & ?%elem_of_nil & _).
  - simpl. destruct (Gitprotocolio.Response ch) as [response|] eqn:Hresp.
    + destruct (hasByte " " response) eqn:Hsp.
      * destruct (Split_with_sep response " " Hsp) as (x & y & l & ->).
        rewrite IH. split.
        -- intros (ch' & r' & Hin & Hr). exists ch', r'. split; [by right|done].
        -- intros (ch' & r' & [->|Hin]%elem_of_cons & Hr' & Hno).
           ++ congruence.
           ++ by exists ch', r'.
      * rewrite (Split_without_sep response " " Hsp). split; [|by eauto].
        intros _. exists ch, response. split; [by left|done].
    + rewrite IH. split.
      * intros (ch' & r' & Hin & Hr). exists ch', r'. split; [by right|done].
      * intros (ch' & r' & [->|Hin]%elem_of_cons & Hr' & Hno).
        -- congruence.
        -- by exists ch', r'.
Qed.

(** X10. The advertisement of the upstream fails to parse exactly when
    one of its response lines has no space in it (one field instead of a
    hash and a name); chunks without a response are passed over, and an
    advertisement with no response line gives the empty snapshot. *)
Theorem parseLsRefsResponse_fails_on_a_line_without_space
    (chunks : list Gitprotocolio.ProtocolV2ResponseChunk) :
  ((exists err, parseLsRefsResponse chunks = inl err) <->
   exists ch response,
     ch ∈ chunks /\ Gitprotocolio.Response ch = Some response /\
     hasByte " " response = false) /\
  (Forall (fun ch => Gitprotocolio.Response ch = None) chunks ->
   parseLsRefsResponse chunks = inr ∅).
Proof.
  split; [apply parseLsRefsLoop_fails|].
  unfold parseLsRefsResponse. induction 1 as [|ch chunks Hch _ IH]; [reflexivity|].
  simpl. by rewrite Hch.
Qed.



End Parsers.

(** ** The mirror, further *)

Section MirrorFurther.
Context {lib : Library} {World : Type} {sys : System World}.

Lemma wantHashesLoop_spec (g : Repository) (hashes : list Hash) :
  (wantHashesLoop g hashes = None <->
   forall hash, hash ∈ hashes -> exists o, Object g hash = Found o) /\
  (forall res, wantHashesLoop g hashes = Some res -> fst res = false) /\
  ((forall hash err, hash ∈ hashes -> Object g hash <> Failed err) ->
   forall res, wantHashesLoop g hashes = Some res -> snd res = None).
Proof.
  induction hashes as [|hash hashes (IH1 & IH2 & IH3)]; simpl.
  - split; [|done]. split; [|done]. by intros _ ? ?%elem_of_nil.
  - destruct (Object g hash) as [o| |err] eqn:Hobj.
    + split; [|split].
      * rewrite IH1. split.
        -- intros Hall h [->|Hin]%elem_of_cons; [by eauto|by apply Hall].
        -- intros Hall h Hin. apply Hall. by right.
      * exact IH2.
      * intros Hok. apply IH3. intros h err Hin. apply Hok. by right.
    + split; [|split].
      * split; [done|]. intros Hall. destruct (Hall hash) as [o Ho]; [by left|congruence].
      * by intros res [= <-].
      * by intros _ res [= <-].
    + split; [|split].
      * split; [done|]. intros Hall. destruct (Hall hash) as [o Ho]; [by left|congruence].
      * by intros res [= <-].
      * intros Hok. destruct (Hok hash err); [by left|done].
Qed.

Lemma wantRefsLoop_spec (g : Repository) (refs : list string) :
  (wantRefsLoop g refs = None <->
   forall refName, refName ∈ refs -> exists h, Reference g refName = Found h) /\
  (forall res, wantRefsLoop g refs = Some res -> fst res = false) /\
  ((forall refName err, refName ∈ refs -> Reference g refName <> Failed err) ->
   forall res, wantRefsLoop g refs = Some res -> snd res = None).
Proof.
  induction refs as [|refName refs (IH1 & IH2 & IH3)]; simpl.
  - split; [|done]. split; [|done]. by intros _ ? ?%elem_of_nil.
  - destruct (Reference g refName) as [h| |err] eqn:Href.
    + split; [|split].
      * rewrite IH1. split.
        -- intros Hall n [->|Hin]%elem_of_cons; [by eauto|by apply Hall].
        -- intros Hall n Hin. apply Hall. by right.
      * exact IH2.
      * intros Hok. apply IH3. intros n err Hin. apply Hok. by right.
    + split; [|split].
      * split; [done|]. intros Hall. destruct (Hall refName) as [h Hh]; [by left|congruence].
      * by intros res [= <-].
      * by intros _ res [= <-].
    + split; [|split].
      * split; [done|]. intros Hall. destruct (Hall refName) as [h Hh]; [by left|congruence].
      * by intros res [= <-].
      * intros Hok. destruct (Hok refName err); [by left|done].
Qed.

(** X12. [hasAllWants] answers true only when the local repository opens
    and every wanted hash is an object of it and every wanted name a
    reference of it, and then without an error; when that is so it does
    answer true. A want that is missing is no error: when no lookup fails
    the error is nil. When the repository does not open the answer is false
    with an error. *)
Theorem hasAllWants_true_iff_all_found
    (r : managedRepository) (hashes : list Hash) (refs : list string)
    (st : State World) :
  let answer := fst (hasAllWants r hashes refs st) in
  let allFound (g : Repository) :=
    (forall hash, hash ∈ hashes -> exists o, Object g hash = Found o) /\
    (forall refName, refName ∈ refs -> exists h, Reference g refName = Found h) in
  (fst answer = true ->
   snd answer = None /\
   exists g, git_PlainOpen (localDiskPath r) (world st) = inr g /\ allFound g) /\
  (forall g,
      git_PlainOpen (localDiskPath r) (world st) = inr g ->
      (allFound g -> answer = (true, None)) /\
      ((forall hash err, hash ∈ hashes -> Object g hash <> Failed err) ->
       (forall refName err, refName ∈ refs -> Reference g refName <> Failed err) ->
       snd answer = None)) /\
  (forall err,
      git_PlainOpen (localDiskPath r) (world st) = inl err ->
      fst answer = false /\ snd answer <> None).
Proof.
  cbv zeta. rewrite hasAllWants_run. cbn [fst].
  destruct (git_PlainOpen (localDiskPath r) (world st)) as [err|g].
  { split; [done|]. split; [done|]. by intros ? [= <-]. }
  destruct (wantHashesLoop_spec g hashes) as (Hh1 & Hh2 & Hh3).
  destruct (wantRefsLoop_spec g refs) as (Hr1 & Hr2 & Hr3).
  split; [|split; [|done]].
  - destruct (wantHashesLoop g hashes) as [res|] eqn:Hhashes.
    { intros Htrue. rewrite (Hh2 res eq_refl) in Htrue. done. }
    destruct (wantRefsLoop g refs) as [res|] eqn:Hrefs.
    { intros Htrue. rewrite (Hr2 res eq_refl) in Htrue. done. }
    intros _. split; [done|]. exists g. split; [done|].
    split; [by apply Hh1|by apply Hr1].
  - intros g' [= <-]. split.
    + intros [Hhashes Hrefs]. apply Hh1 in Hhashes. apply Hr1 in Hrefs.
      by rewrite Hhashes, Hrefs.
    + intros Hokh Hokr.
      destruct (wantHashesLoop g hashes) as [res|] eqn:Hhashes; [by apply Hh3|].
      destruct (wantRefsLoop g refs) as [res|] eqn:Hrefs; [by apply Hr3|done].
Qed.

Lemma runGit_run (gitDir authentication : string) (arg : list string)
    (st : State World) :
  let ran := exec_Run (runGitCmd gitDir authentication arg) (world st) in
  runGit gitDir authentication arg st =
    (match snd (fst ran) with
     | Some e => Some (errorString ("failed to run a git command: " +:+ Error e))
     | None => None
     end,
     mkState (snd ran) (managedRepos st)
             (trace st ++ [EffExec (runGitCmd gitDir authentication arg)])).
Proof.
  cbv zeta. unfold runGit. rewrite bind_run.
  fold (runGitCmd gitDir authentication arg). unfold Run.
  destruct (exec_Run _ _) as [[out [e|]] w']; reflexivity.
Qed.

(** X13. A fetch from the upstream that returns nil has run the full
    fetch (fetch --progress -f origin, with the credential of the call) as
    its last command and that command succeeded; before it at most the
    fetch of heads and changes was run. When the local repository has a
    HEAD, the full fetch is the only command. When the local repository does
    not open, an error is returned and no command is run. *)
Theorem fetchUpstream_success_means_full_fetch
    (r : managedRepository) (authentication : string) (st : State World) :
  let fetched := fetchUpstream r authentication st in
  (fst fetched = None ->
   exists st1 out,
     exec_Run (fetchAllCmd r authentication) (world st1)
       = ((out, None), world (snd fetched)) /\
     trace (snd fetched) = trace st1 ++ [EffExec (fetchAllCmd r authentication)] /\
     (trace st1 = trace st \/
      trace st1 = trace st ++ [EffExec (fetchHeadsCmd r authentication)])) /\
  (forall g h,
      git_PlainOpen (localDiskPath r) (world st) = inr g ->
      Reference g "HEAD" = Found h ->
      trace (snd fetched) = trace st ++ [EffExec (fetchAllCmd r authentication)]) /\
  (forall err,
      git_PlainOpen (localDiskPath r) (world st) = inl err ->
      snd fetched = st /\ fst fetched <> None).
Proof.
  cbv zeta. unfold fetchUpstream. rewrite bind_run. unfold PlainOpen. cbn [fst snd].
  destruct (git_PlainOpen (localDiskPath r) (world st)) as [err|g].
  { split; [done|]. split; [done|]. by intros ? _. }
  rewrite bind_run.
  split; [|split; [|done]].
  - destruct (Reference g "HEAD") as [h| |err].
    + cbn [fst snd ret]. rewrite runGit_run. cbv zeta. cbn [fst snd].
      fold (fetchAllCmd r authentication).
      destruct (exec_Run (fetchAllCmd r authentication) (world st))
        as [[out [e|]] w'] eqn:Hrun; cbn [fst snd]; [done|].
      intros _. exists st, out. rewrite Hrun. cbn. by eauto.
    + rewrite runGit_run. cbv zeta. cbn [fst snd].
      fold (fetchHeadsCmd r authentication).
      destruct (exec_Run (fetchHeadsCmd r authentication) (world st))
        as [[out1 [e1|]] w1] eqn:Hrun1; cbn [fst snd ret]; [done|].
      rewrite runGit_run. cbv zeta. cbn [fst snd world trace managedRepos].
      fold (fetchAllCmd r authentication).
      destruct (exec_Run (fetchAllCmd r authentication) w1)
        as [[out [e|]] w'] eqn:Hrun; cbn [fst snd]; [done|].
      intros _.
      exists (mkState w1 (managedRepos st)
                (trace st ++ [EffExec (fetchHeadsCmd r authentication)])), out.
      cbn [world trace]. rewrite Hrun. cbn. by eauto.
    + cbn [fst snd ret]. rewrite runGit_run. cbv zeta. cbn [fst snd].
      fold (fetchAllCmd r authentication).
      destruct (exec_Run (fetchAllCmd r authentication) (world st))
        as [[out [e|]] w'] eqn:Hrun; cbn [fst snd]; [done|].
      intros _. exists st, out. rewrite Hrun. cbn. by eauto.
  - intros g' h [= <-] ->. cbn [fst snd ret]. by rewrite runGit_trace.
Qed.

End MirrorFurther.

(** ** The command dispatcher, further *)

Lemma Contains_unfold (s substr : string) :
  Strings.Contains s substr =
    Strings.HasPrefix s substr ||
    match s with
    | EmptyString => false
    | String _ s' => Strings.Contains s' substr
    end.
Proof. by destruct s. Qed.

Lemma Contains_app_r (a s substr : string) :
  Strings.Contains s substr = true -> Strings.Contains (a +:+ s) substr = true.
Proof.
  intros Hs. induction a as [|c a IH]; [by rewrite string_app_nil_l|].
  rewrite string_app_cons, Contains_unfold, IH. apply orb_true_r.
Qed.

Lemma Contains_infix (a substr b : string) :
  Strings.Contains (a +:+ substr +:+ b) substr = true.
Proof.
  apply Contains_app_r. by rewrite Contains_unfold, HasPrefix_app.
Qed.

Section DispatcherFurther.
Context {lib : Library} {World : Type} {sys : System World}.

(** The want-wait loop is left by [break] only in a state in which the
    wants are all there. *)
Lemma wantWaitLoop_break
    (schedule : Schedule) (repo : managedRepository)
    (hashes : list Hash) (refs : list string) (authentication : string)
    (st : State World) :
  fst (wantWaitLoop schedule repo hashes refs authentication st) = BreakLoop ->
  fst (hasAllWants repo hashes refs
         (snd (wantWaitLoop schedule repo hashes refs authentication st)))
    = (true, None).
Proof.
  revert st. induction schedule as [|[event env] schedule IH]; intros st; [done|].
  destruct event as [ctxErr| |].
  - simpl wantWaitLoop. rewrite bind_run. done.
  - rewrite wantWaitLoop_FetchDone. cbv zeta. cbn [fst snd].
    destruct (fst (hasAllWants _ _ _ _)) as [[|] [err|]] eqn:Hcheck; cbn [fst snd]; done.
  - rewrite wantWaitLoop_TimerFired. cbv zeta.
    destruct (fst (hasAllWants _ _ _ _)) as [[|] [err|]] eqn:Hcheck; cbn [fst snd];
      try done.
    apply IH.
Qed.

(** While it waits the loop runs nothing but the git commands of the
    fetch. *)
Lemma wantWaitLoop_trace
    (schedule : Schedule) (repo : managedRepository)
    (hashes : list Hash) (refs : list string) (authentication : string)
    (st : State World) :
  exists cmds,
    trace (snd (wantWaitLoop schedule repo hashes refs authentication st))
      = trace st ++ map EffExec cmds /\
    forall cmd, cmd ∈ cmds -> Env cmd = [].
Proof.
  revert st. induction schedule as [|[event env] schedule IH]; intros st.
  { exists []. simpl. split; [by rewrite app_nil_r|]. by intros ? ?%elem_of_nil. }
  destruct event as [ctxErr| |].
  - simpl wantWaitLoop. rewrite bind_run. exists []. simpl.
    split; [by rewrite app_nil_r|]. by intros ? ?%elem_of_nil.
  - rewrite wantWaitLoop_FetchDone. cbv zeta. cbn [snd].
    apply (fetchUpstream_trace repo authentication
             (mkState (env (world st)) (managedRepos st) (trace st))).
  - rewrite wantWaitLoop_TimerFired. cbv zeta.
    destruct (fst (hasAllWants _ _ _ _)) as [[|] [err|]]; cbn [fst snd];
      try (exists []; simpl; split; [by rewrite app_nil_r|]; by intros ? ?%elem_of_nil).
    apply (IH (mkState (env (world st)) (managedRepos st) (trace st))).
Qed.

(** X14. A fetch command writes to the client only through upload-pack,
    and runs upload-pack only in a state in which has-all-wants has just
    answered true: on every schedule, either upload-pack is run once, last,
    in such a state, and its output and error are the result; or nothing is
    written and upload-pack is not run. *)
Theorem fetch_serves_only_when_wants_are_present
    (schedule : Schedule) (repo : managedRepository)
    (command0 : Gitprotocolio.ProtocolV2RequestChunk)
    (rest : list Gitprotocolio.ProtocolV2RequestChunk)
    (w authentication : string) (hashes : list Hash) (refs : list string)
    (st : State World) :
  Gitprotocolio.Command command0 = "fetch" ->
  let command := command0 :: rest in
  parseFetchWants command = inr (hashes, refs) ->
  let result := handleV2Command schedule repo command w authentication st in
  (exists st1 out err,
      fst (hasAllWants repo hashes refs st1) = (true, None) /\
      exec_Run (uploadPackCmd repo command) (world st1)
        = ((out, err), world (snd result)) /\
      fst result = (w +:+ out, Returned err) /\
      trace (snd result) = trace st1 ++ [EffExec (uploadPackCmd repo command)]) \/
  (fst (fst result) = w /\
   exists new,
     trace (snd result) = trace st ++ new /\
     EffExec (uploadPackCmd repo command) ∉ new).
Proof.
  intros Hcmd command Hparse. cbv zeta. subst command.
  rewrite (handleV2Command_fetch _ _ _ _ _ _ hashes refs) by done. cbv zeta.
  assert (Hserve : forall st1,
             fst (hasAllWants repo hashes refs st1) = (true, None) ->
             exists st1' out err,
               fst (hasAllWants repo hashes refs st1') = (true, None) /\
               exec_Run (uploadPackCmd repo (command0 :: rest)) (world st1')
                 = ((out, err), world (snd (serveFetchLocal repo (command0 :: rest) w st1))) /\
               (fst (fst (serveFetchLocal repo (command0 :: rest) w st1)),
                Returned (snd (fst (serveFetchLocal repo (command0 :: rest) w st1))))
                 = (w +:+ out, Returned err) /\
               trace (snd (serveFetchLocal repo (command0 :: rest) w st1))
                 = trace st1' ++ [EffExec (uploadPackCmd repo (command0 :: rest))]).
  { intros st1 Hst1. exists st1. rewrite serveFetchLocal_run. cbv zeta. cbn [fst snd world trace].
    destruct (exec_Run _ _) as [[out err] w']. by exists out, err. }
  destruct (fst (hasAllWants repo hashes refs st)) as [[|] [err|]] eqn:Hinit; cbn [fst snd].
  - right. split; [done|]. exists []. split; [by rewrite app_nil_r|]. by intros ?%elem_of_nil.
  - left. by apply Hserve.
  - right. split; [done|]. exists []. split; [by rewrite app_nil_r|]. by intros ?%elem_of_nil.
  - set (launched := mkState (world st) (managedRepos st)
                       (trace st ++ [EffGo repo authentication])).
    destruct (wantWaitLoop_trace schedule repo hashes refs authentication launched)
      as (cmds & Htrace & Henv).
    assert (Hnew : exists new,
               trace (snd (wantWaitLoop schedule repo hashes refs authentication launched))
                 = trace st ++ new /\
               EffExec (uploadPackCmd repo (command0 :: rest)) ∉ new).
    { exists (EffGo repo authentication :: map EffExec cmds).
      rewrite Htrace. subst launched. cbn [trace]. split; [by rewrite <- app_assoc|].
      intros [[=]|Hin]%elem_of_cons.
      apply list_elem_of_fmap in Hin as (cmd & [= <-] & Hcmd'%Henv). discriminate. }
    destruct (fst (wantWaitLoop schedule repo hashes refs authentication launched))
      as [err| |] eqn:Hexit; cbn [fst snd].
    + right. by split.
    + left. apply Hserve. by apply wantWaitLoop_break.
    + right. by split.
Qed.

(** X15. Wants that are all there are served at once: no fetch task is
    started, upload-pack is the only thing run, and the schedule plays no
    part. *)
Theorem fetch_of_present_wants_starts_no_fetch
    (schedule : Schedule) (repo : managedRepository)
    (command0 : Gitprotocolio.ProtocolV2RequestChunk)
    (rest : list Gitprotocolio.ProtocolV2RequestChunk)
    (w authentication : string) (hashes : list Hash) (refs : list string)
    (st : State World) :
  Gitprotocolio.Command command0 = "fetch" ->
  let command := command0 :: rest in
  parseFetchWants command = inr (hashes, refs) ->
  fst (hasAllWants repo hashes refs st) = (true, None) ->
  let result := handleV2Command schedule repo command w authentication st in
  (exists out err,
      exec_Run (uploadPackCmd repo command) (world st) = ((out, err), world (snd result)) /\
      fst result = (w +:+ out, Returned err)) /\
  trace (snd result) = trace st ++ [EffExec (uploadPackCmd repo command)] /\
  (forall schedule',
      handleV2Command schedule' repo command w authentication st = result).
Proof.
  intros Hcmd command Hparse Hinit. cbv zeta. subst command.
  split; [|split].
  - rewrite (handleV2Command_fetch _ _ _ _ _ _ hashes refs) by done. cbv zeta.
    rewrite Hinit. cbn [fst snd]. rewrite serveFetchLocal_run. cbv zeta. cbn [fst snd world].
    destruct (exec_Run _ _) as [[out err] w']. by exists out, err.
  - rewrite (handleV2Command_fetch _ _ _ _ _ _ hashes refs) by done. cbv zeta.
    rewrite Hinit. cbn [fst snd]. rewrite serveFetchLocal_run. done.
  - intros schedule'.
    rewrite !(handleV2Command_fetch _ _ _ _ _ _ hashes refs) by done. cbv zeta.
    by rewrite Hinit.
Qed.

(** X16. When the context of the request is done while the command waits,
    the command returns the error of the context at once: nothing is
    written, upload-pack is not run, and the result of the fetch task is
    not waited for (the task was started and nothing else was done). *)
Theorem cancelled_fetch_returns_at_once
    (schedule : Schedule) (env : World -> World) (ctxErr : error)
    (repo : managedRepository)
    (command0 : Gitprotocolio.ProtocolV2RequestChunk)
    (rest : list Gitprotocolio.ProtocolV2RequestChunk)
    (w authentication : string) (hashes : list Hash) (refs : list string)
    (st : State World) :
  Gitprotocolio.Command command0 = "fetch" ->
  let command := command0 :: rest in
  parseFetchWants command = inr (hashes, refs) ->
  fst (hasAllWants repo hashes refs st) = (false, None) ->
  handleV2Command ((CtxDone ctxErr, env) :: schedule) repo command w authentication st
    = ((w, Returned (Some ctxErr)),
       mkState (env (world st)) (managedRepos st)
               (trace st ++ [EffGo repo authentication])).
Proof.
  intros Hcmd command Hparse Hinit. subst command.
  rewrite (handleV2Command_fetch _ _ _ _ _ _ hashes refs) by done. cbv zeta.
  rewrite Hinit. cbn [fst snd]. simpl wantWaitLoop. rewrite bind_run. reflexivity.
Qed.

(** X17. When a tick of the timer finds the wants all there, the command
    leaves the loop and serves the client without the result of the fetch
    task: upload-pack is run right after the task was started, and whatever
    the schedule holds after the tick is not received. *)
Theorem tick_with_wants_present_serves
    (schedule : Schedule) (env : World -> World) (repo : managedRepository)
    (command0 : Gitprotocolio.ProtocolV2RequestChunk)
    (rest : list Gitprotocolio.ProtocolV2RequestChunk)
    (w authentication : string) (hashes : list Hash) (refs : list string)
    (st : State World) :
  Gitprotocolio.Command command0 = "fetch" ->
  let command := command0 :: rest in
  parseFetchWants command = inr (hashes, refs) ->
  fst (hasAllWants repo hashes refs st) = (false, None) ->
  fst (hasAllWants repo hashes refs
         (mkState (env (world st)) (managedRepos st) (trace st))) = (true, None) ->
  let result :=
    handleV2Command ((TimerFired, env) :: schedule) repo command w authentication st in
  (exists out err,
      exec_Run (uploadPackCmd repo command) (env (world st))
        = ((out, err), world (snd result)) /\
      fst result = (w +:+ out, Returned err)) /\
  trace (snd result)
    = trace st ++ [EffGo repo authentication; EffExec (uploadPackCmd repo command)].
Proof.
  intros Hcmd command Hparse Hinit Htick. cbv zeta. subst command.
  rewrite (handleV2Command_fetch _ _ _ _ _ _ hashes refs) by done. cbv zeta.
  rewrite Hinit. cbn [fst snd]. rewrite wantWaitLoop_TimerFired. cbv zeta.
  cbn [world managedRepos trace].
  rewrite (hasAllWants_world repo hashes refs _
             (mkState (env (world st)) (managedRepos st) (trace st))) by done.
  rewrite Htick. cbn [fst snd]. rewrite serveFetchLocal_run. cbv zeta.
  cbn [fst snd world trace].
  destruct (exec_Run _ _) as [[out err] w']. cbn [fst snd].
  split; [by exists out, err|]. by rewrite <- app_assoc.
Qed.

(** X18. An upstream that answers an ls-refs request with status 404 makes
    the reply to the client a 404 with the content type of a result; the
    commands after it are not run, no fetch task is started and the
    registry is as it was. *)
Theorem upstream_404_is_reported_as_404
    (schedules : nat -> Schedule) (i : nat) (repo : managedRepository)
    (command0 : Gitprotocolio.ProtocolV2RequestChunk)
    (rest : list Gitprotocolio.ProtocolV2RequestChunk)
    (commands : list (list Gitprotocolio.ProtocolV2RequestChunk))
    (buff auth : string) (st : State World)
    (resp : Http.ClientResponse) (w' : World) :
  let req := lsRefsRequest repo (command0 :: rest) auth in
  Gitprotocolio.Command command0 = "ls-refs" ->
  NewRequest_err "POST" (Http.reqURL req) = None ->
  http_Do req (world st) = (inr resp, w') ->
  Http.respStatusCode resp = 404 ->
  exists reply,
    handleCommands schedules i repo ((command0 :: rest) :: commands) buff auth st
      = (Respond reply, mkState w' (managedRepos st) (trace st ++ [EffHTTP req])) /\
    Goproxy.StatusCode reply = 404 /\
    Http.Get (Goproxy.Header reply) "Content-Type"
      = "application/x-git-upload-pack-result".
Proof.
  cbv zeta. intros Hcmd Hnew Hdo Hstatus.
  cbn [handleCommands]. rewrite bind_run.
  rewrite handleV2Command_lsRefs by done. cbv zeta.
  rewrite lsRefsUpstream_run. cbv zeta. rewrite Hnew, Hdo. cbn [fst snd].
  rewrite Hstatus. change (negb (404 =? Http.StatusOK)) with true. cbv iota.
  cbn [fst snd]. unfold ret. eexists. split; [reflexivity|]. split; [|reflexivity].
  cbn [Goproxy.StatusCode Goproxy.NewResponse]. unfold statusCodeOf.
  cbn [Error].
  change (Itoa 404) with "404".
  by rewrite (Contains_infix "got a non-OK response from the upstream: " "404").
Qed.

(** X19. The dispatcher does not panic on a well-formed command, which is
    what [parseAllCommands] hands it: taking the first chunk of the command
    is always in range. *)
Theorem wellFormed_command_does_not_panic
    (schedule : Schedule) (repo : managedRepository)
    (command : list Gitprotocolio.ProtocolV2RequestChunk)
    (w authentication : string) (st : State World) :
  wellFormedCommand command ->
  snd (fst (handleV2Command schedule repo command w authentication st)) <> Panicked.
Proof.
  intros [(chunk0 & rest & -> & [Hls|Hfetch]) _].
  - rewrite handleV2Command_lsRefs by done. cbv zeta.
    destruct (fst (lsRefsUpstream _ _ _ _)) as [err|resp]; [done|].
    destruct (parseLsRefsResponse resp) as [err|refs]; [done|].
    by destruct (snd (fst (hasAnyUpdate _ _ _))).
  - destruct (parseFetchWantsLoop_total (chunk0 :: rest) [] [])
      as (hashes & refs & Hparse & _).
    rewrite (handleV2Command_fetch _ _ _ _ _ _ hashes refs) by done. cbv zeta.
    destruct (snd (fst (hasAllWants _ _ _ _))); [done|].
    destruct (fst (fst (hasAllWants _ _ _ _))); [done|].
    by destruct (fst (wantWaitLoop _ _ _ _ _ _)).
Qed.

End DispatcherFurther.

(* ===================================================================== *)
(** * Part VI. The further properties at concrete inputs                  *)
(* ===================================================================== *)

(** X4 at an input: the private mirror was created with the credential
    Basic YWJj; a request with another credential leaves the registry as it
    was. *)
Lemma registered_mirror_is_left_alone_witness :
  is_Some (managedRepos Demo.withPrivateMirror
             !! getLocalGitRepositoryPath Demo.config (URL Inputs.privateUploadPackRequest)) /\
  managedRepos
    (snd (handleGitUploadPack (lib := Demo.library) (sys := Demo.system)
            Inputs.privateUploadPackRequest Demo.config (fun _ => [])
            Demo.withPrivateMirror))
    = managedRepos Demo.withPrivateMirror.
Proof.
  assert (Hreg :
    managedRepos Demo.withPrivateMirror
      !! getLocalGitRepositoryPath Demo.config (URL Inputs.privateUploadPackRequest)
    = Some (fst (createManagedRepository Demo.config
                   (Demo.url "/private/r.git/git-upload-pack" "")
                   "Basic YWJj" (Demo.start Demo.cold)))).
  { unfold Demo.withPrivateMirror, createManagedRepository. simpl.
    apply lookup_insert_eq. }
  split; [by eexists|].
  exact (registered_mirror_is_left_alone
           (lib := Demo.library) (sys := Demo.system)
           Inputs.privateUploadPackRequest Demo.config (fun _ => [])
           Demo.withPrivateMirror _ Hreg).
Defined.

(** X5 at an input: the command push-certs is not recognized; the reply
    is 400 and the state is untouched. *)
Lemma undecodable_request_touches_nothing_witness :
  (exists err,
      parseAllCommands (lib := Demo.library) (Body Inputs.pushCertsRequest)
        = inl err /\
      Strings.Contains (Error err) "unrecognized command" = true) /\
  exists resp,
    handleGitUploadPack (lib := Demo.library) (sys := Demo.system)
      Inputs.pushCertsRequest Demo.config (fun _ => []) (Demo.start Demo.cold)
      = (Respond resp, Demo.start Demo.cold) /\
    Goproxy.StatusCode resp = 400.
Proof.
  split; [eexists; split; reflexivity|].
  destruct (undecodable_request_touches_nothing
              (lib := Demo.library) (sys := Demo.system)
              Inputs.pushCertsRequest Demo.config (fun _ => [])
              (Demo.start Demo.cold))
    as (resp & Hrun & Hstatus & _).
  - right. eexists _, _. split; reflexivity.
  - by exists resp.
Defined.

(** X6 at an input: on a disk where no directory can be made, the request
    is answered 400 and its mirror is in the registry all the same. *)
Lemma failed_open_leaves_mirror_registered_witness :
  fst (managedRepositoryExists Demo.config (URL Demo.uploadPackRequest)
         (Demo.start Inputs.readOnlyDisk)) = false /\
  fst (managedRepositoryExists Demo.config (URL Demo.uploadPackRequest)
         (snd (handleGitUploadPack (lib := Demo.library) (sys := Demo.system)
                 Demo.uploadPackRequest Demo.config (fun _ => [])
                 (Demo.start Inputs.readOnlyDisk)))) = true.
Proof.
  split; [reflexivity|].
  destruct (failed_open_leaves_mirror_registered
              (lib := Demo.library) (sys := Demo.system)
              Demo.uploadPackRequest Demo.config (fun _ => [])
              (Demo.start Inputs.readOnlyDisk)
              (Body Demo.uploadPackRequest) [Demo.fetchCommand]
              (statusError Internal "cannot create a cache dir: permission denied")
              eq_refl eq_refl (lookup_empty _) eq_refl)
    as (_ & _ & Hexists).
  exact Hexists.
Defined.

(** X8 at an input: the private mirror, asked for with an Authorization
    header that is no credential, hands out its advertisement. *)
Lemma advertisement_needs_only_a_header_witness :
  Http.Get (Header Inputs.infoRefsWithHeader) "Authorization" = "anything" /\
  exists advertisement,
    handleInfoRefs (lib := Demo.library) (World := Demo.World)
      Inputs.infoRefsWithHeader Demo.config Demo.withPrivateMirror
    = (Respond (Goproxy.NewResponse "application/x-git-upload-pack-advertisement"
                  Http.StatusOK advertisement),
       Demo.withPrivateMirror).
Proof.
  split; [reflexivity|]. eexists.
  eapply (advertisement_needs_only_a_header
            (lib := Demo.library) (World := Demo.World)
            Inputs.infoRefsWithHeader Demo.config Demo.withPrivateMirror
            (fst (createManagedRepository Demo.config
                    (Demo.url "/private/r.git/git-upload-pack" "")
                    "Basic YWJj" (Demo.start Demo.cold)))).
  - reflexivity.
  - unfold Demo.withPrivateMirror, createManagedRepository. simpl.
    apply lookup_insert_eq.
  - right. discriminate.
  - reflexivity.
Defined.


(** X14 at an input: on a cold cache whose fetch brings nothing, nothing
    is written and upload-pack is not run. *)
Lemma fetch_serves_only_when_wants_are_present_witness :
  parseFetchWants (lib := Demo.library) Demo.fetchCommand
    = inr (["aaaaaaaaaaaaaaaaaaaaaaaaaaaaaaaaaaaaaaaa"], []) /\
  fst (fst (handleV2Command (lib := Demo.library) (sys := Demo.system)
              [(FetchDone, fun w => w)] Demo.mirror Demo.fetchCommand "" ""
              (Demo.start Demo.cold))) = "".
Proof.
  split; [reflexivity|].
  destruct (fetch_serves_only_when_wants_are_present
              (lib := Demo.library) (sys := Demo.system)
              [(FetchDone, fun w => w)] Demo.mirror
              (Demo.requestChunk "command=fetch")
              [Demo.requestChunk "want aaaaaaaaaaaaaaaaaaaaaaaaaaaaaaaaaaaaaaaa"]
              "" "" ["aaaaaaaaaaaaaaaaaaaaaaaaaaaaaaaaaaaaaaaa"] []
              (Demo.start Demo.cold) eq_refl eq_refl)
    as [(st1 & out & err & _ & _ & _ & Htrace)|[Hnothing _]].
  - apply (f_equal last) in Htrace. rewrite last_snoc in Htrace.
    vm_compute in Htrace. discriminate.
  - exact Hnothing.
Defined.

(** X15 at an input: the wanted object is in the local repository; the
    command runs upload-pack and nothing else. *)
Lemma fetch_of_present_wants_starts_no_fetch_witness :
  fst (hasAllWants (lib := Demo.library) (sys := Demo.system) Demo.mirror
         ["aaaaaaaaaaaaaaaaaaaaaaaaaaaaaaaaaaaaaaaa"] [] (Demo.start Inputs.warm))
    = (true, None) /\
  trace (snd (handleV2Command (lib := Demo.library) (sys := Demo.system)
                [] Demo.mirror Demo.fetchCommand "" "" (Demo.start Inputs.warm)))
    = [EffExec (uploadPackCmd (lib := Demo.library) (sys := Demo.system)
                  Demo.mirror Demo.fetchCommand)].
Proof.
  split; [reflexivity|].
  destruct (fetch_of_present_wants_starts_no_fetch
              (lib := Demo.library) (sys := Demo.system)
              [] Demo.mirror
              (Demo.requestChunk "command=fetch")
              [Demo.requestChunk "want aaaaaaaaaaaaaaaaaaaaaaaaaaaaaaaaaaaaaaaa"]
              "" "" ["aaaaaaaaaaaaaaaaaaaaaaaaaaaaaaaaaaaaaaaa"] []
              (Demo.start Inputs.warm) eq_refl eq_refl eq_refl)
    as (_ & Htrace & _).
  exact Htrace.
Defined.

(** X16 at an input: the client goes away while the command waits on a
    cold cache. *)
Lemma cancelled_fetch_returns_at_once_witness :
  fst (hasAllWants (lib := Demo.library) (sys := Demo.system) Demo.mirror
         ["aaaaaaaaaaaaaaaaaaaaaaaaaaaaaaaaaaaaaaaa"] [] (Demo.start Demo.cold))
    = (false, None) /\
  handleV2Command (lib := Demo.library) (sys := Demo.system)
    [(CtxDone (errorString "context canceled"), fun w => w); (FetchDone, Demo.arrived)]
    Demo.mirror Demo.fetchCommand "" "" (Demo.start Demo.cold)
  = (("", Returned (Some (errorString "context canceled"))),
     mkState Demo.cold ∅ [EffGo Demo.mirror ""]).
Proof.
  split; [reflexivity|].
  exact (cancelled_fetch_returns_at_once
           (lib := Demo.library) (sys := Demo.system)
           [(FetchDone, Demo.arrived)] (fun w => w) (errorString "context canceled")
           Demo.mirror
           (Demo.requestChunk "command=fetch")
           [Demo.requestChunk "want aaaaaaaaaaaaaaaaaaaaaaaaaaaaaaaaaaaaaaaa"]
           "" "" ["aaaaaaaaaaaaaaaaaaaaaaaaaaaaaaaaaaaaaaaa"] []
           (Demo.start Demo.cold) eq_refl eq_refl eq_refl).
Defined.

(** X17 at an input: the wanted object arrives before the first tick; the
    command serves it while the fetch task is still running. *)
Lemma tick_with_wants_present_serves_witness :
  fst (hasAllWants (lib := Demo.library) (sys := Demo.system) Demo.mirror
         ["aaaaaaaaaaaaaaaaaaaaaaaaaaaaaaaaaaaaaaaa"] []
         (mkState (Demo.arrived Demo.cold) ∅ [])) = (true, None) /\
  trace (snd (handleV2Command (lib := Demo.library) (sys := Demo.system)
                [(TimerFired, Demo.arrived)] Demo.mirror Demo.fetchCommand "" ""
                (Demo.start Demo.cold)))
    = [EffGo Demo.mirror "";
       EffExec (uploadPackCmd (lib := Demo.library) (sys := Demo.system)
                  Demo.mirror Demo.fetchCommand)].
Proof.
  split; [reflexivity|].
  destruct (tick_with_wants_present_serves
              (lib := Demo.library) (sys := Demo.system)
              [] Demo.arrived Demo.mirror
              (Demo.requestChunk "command=fetch")
              [Demo.requestChunk "want aaaaaaaaaaaaaaaaaaaaaaaaaaaaaaaaaaaaaaaa"]
              "" "" ["aaaaaaaaaaaaaaaaaaaaaaaaaaaaaaaaaaaaaaaa"] []
              (Demo.start Demo.cold) eq_refl eq_refl eq_refl eq_refl)
    as (_ & Htrace).
  exact Htrace.
Defined.

(** X18 at an input: the upstream answers 404 to an ls-refs. *)
Lemma upstream_404_is_reported_as_404_witness :
  Demo.upstreamStatus Inputs.upstreamGone = 404 /\
  exists reply,
    fst (handleCommands (lib := Demo.library) (sys := Demo.system)
           (fun _ => []) 0 Demo.mirror [Demo.lsRefsCommand] "" ""
           (Demo.start Inputs.upstreamGone)) = Respond reply /\
    Goproxy.StatusCode reply = 404.
Proof.
  split; [reflexivity|].
  destruct (upstream_404_is_reported_as_404
              (lib := Demo.library) (sys := Demo.system)
              (fun _ => []) 0 Demo.mirror
              (Demo.requestChunk "command=ls-refs") [] [] "" ""
              (Demo.start Inputs.upstreamGone)
              {| Http.respStatusCode := 404; Http.respHeader := [];
                 Http.respBody := ("", None) |}
              Inputs.upstreamGone eq_refl eq_refl eq_refl eq_refl)
    as (reply & Hrun & Hstatus & _).
  exists reply. split; [|exact Hstatus].
  change [Demo.lsRefsCommand] with [[Demo.requestChunk "command=ls-refs"]].
  by rewrite Hrun.
Defined.

(** X19 at an input: the fetch command of the request is well formed. *)
Lemma wellFormed_command_does_not_panic_witness :
  wellFormedCommand Demo.fetchCommand /\
  snd (fst (handleV2Command (lib := Demo.library) (sys := Demo.system)
              [] Demo.mirror Demo.fetchCommand "" "" (Demo.start Demo.cold)))
    <> Panicked.
Proof.
  assert (Hwf : wellFormedCommand Demo.fetchCommand).
  { split; [|by repeat constructor].
    eexists _, _. split; [reflexivity|]. by right. }
  split; [exact Hwf|].
  exact (wellFormed_command_does_not_panic
           (lib := Demo.library) (sys := Demo.system)
           [] Demo.mirror Demo.fetchCommand "" "" (Demo.start Demo.cold) Hwf).
Defined.
